(** * PRI Training: the session engine

    A shallow embedding of the algorithmic core of the application
    ([shuffleArray], [calculatePRI], [useGameTimer], [App.endGame],
    [SymbolMatchGame.generateRound], [CodingGame.generateRound]) and the
    properties of it that the specification states.

    Conventions of the embedding:
    - a JavaScript [number] that carries a fractional computation is an
      IEEE 754 binary64 value, modelled by [spec_float] with precision 53
      and maximal exponent 1024 (the Standard Library's executable
      specification of binary64, round to nearest even);
    - counters, indices and digits (integers far below 2^53, on which
      binary64 arithmetic is exact) are [Z] or [nat];
    - [Math.random()] is an oracle: the [n]-th call returns [rng n], a
      binary64 value [r] with [0 <= r < 1]; its product with an integer is
      the binary64 product, and [Math.floor] is applied to that product;
    - [Date.now()] is an input of the code that calls it, and the JSON
      text in [localStorage] is represented by the list it encodes;
    - React state is a record; a state setter overwrites a field; a
      callback created by a render reads the values that render captured. *)

From Stdlib Require Import ZArith QArith Qround Lia SpecFloat.
From stdpp Require Import base option list gmap pretty.

Local Open Scope Z_scope.

(** ** JavaScript numbers *)

Module Number.

Definition prec : Z := 53.
Definition emax : Z := 1024.

(** A binary64 value. *)
Definition number : Type := spec_float.

#[global] Instance number_eq_dec : EqDecision number.
Proof. unfold number. solve_decision. Defined.

Definition valid (x : number) : bool := valid_binary prec emax x.

Definition is_nan (x : number) : bool :=
  match x with S754_nan => true | _ => false end.

Definition is_finite (x : number) : bool :=
  match x with S754_zero _ | S754_finite _ _ _ => true | _ => false end.

(** The binary64 value of an integer literal. *)
Definition of_Z (z : Z) : number := binary_normalize prec emax z 0 false.

Definition add : number -> number -> number := SFadd prec emax.
Definition sub : number -> number -> number := SFsub prec emax.
Definition mul : number -> number -> number := SFmul prec emax.
Definition div : number -> number -> number := SFdiv prec emax.

(** [x < y], [x > y] and [x >= y]; all are false when an operand is
    NaN. *)
Definition ltb (x y : number) : bool := SFltb x y.
Definition gtb (x y : number) : bool := SFltb y x.
Definition geb (x y : number) : bool := SFleb y x.

(** The literal [0.5]. *)
Definition one_half : number := S754_finite false 4503599627370496 (-53).

(** [Math.max(x, y)]: NaN if an argument is NaN, and [+0] is larger
    than [-0]. *)
Definition Math_max (x y : number) : number :=
  if is_nan x || is_nan y then S754_nan
  else match x, y with
       | S754_zero true, S754_zero false => y
       | _, _ => if ltb x y then y else x
       end.

(** An integral binary64 value, NaN or an infinity: the results of
    [Math.round].  An integral binary64 value is kept as the integer it
    denotes ([+0] and [-0] both as [0]); comparison of such values is
    comparison of the integers. *)
Inductive integral : Type :=
| NaN
| Inf (negative : bool)
| Int (z : Z).

(** The integer nearest to [(-1)^s * m * 2^e], the upper one on a tie:
    [floor (x + 1/2)], computed exactly. *)
Definition round_half_up (s : bool) (m : positive) (e : Z) : Z :=
  let v := if s then Z.neg m else Z.pos m in
  if 0 <=? e then v * 2 ^ e
  else (v + 2 ^ (- e - 1)) `div` 2 ^ (- e).

(** [Math.round(x)]. *)
Definition Math_round (x : number) : integral :=
  match x with
  | S754_nan => NaN
  | S754_infinity s => Inf s
  | S754_zero _ => Int 0
  | S754_finite s m e => Int (round_half_up s m e)
  end.

(** The largest integer that is not above [(-1)^s * m * 2^e]. *)
Definition floor_finite (s : bool) (m : positive) (e : Z) : Z :=
  let v := if s then Z.neg m else Z.pos m in
  if 0 <=? e then v * 2 ^ e else v `div` 2 ^ (- e).

(** [Math.floor(x)]. *)
Definition Math_floor (x : number) : integral :=
  match x with
  | S754_nan => NaN
  | S754_infinity s => Inf s
  | S754_zero _ => Int 0
  | S754_finite s m e => Int (floor_finite s m e)
  end.

(** [x < y] on the results of [Math.round]. *)
Definition integral_ltb (x y : integral) : bool :=
  match x, y with
  | NaN, _ | _, NaN => false
  | Inf true, Inf true => false
  | Inf true, _ => true
  | _, Inf true => false
  | Inf false, _ => false
  | _, Inf false => true
  | Int a, Int b => a <? b
  end.

(** [Math.min] and [Math.max] on the results of [Math.round]. *)
Definition Math_min_integral (x y : integral) : integral :=
  match x, y with
  | NaN, _ | _, NaN => NaN
  | _, _ => if integral_ltb y x then y else x
  end.

Definition Math_max_integral (x y : integral) : integral :=
  match x, y with
  | NaN, _ | _, NaN => NaN
  | _, _ => if integral_ltb x y then y else x
  end.

End Number.

Import Number.

(** ** Types of the application *)

(** [type GameType = 'symbol-match' | 'coding' | null] *)
Inductive GameType : Type :=
| symbol_match
| coding
| null.

(** ** calculatePRI *)

Definition calculatePRI (score mistakes elapsedSeconds : number)
    (gameType : GameType) : integral :=
  if ltb elapsedSeconds (of_Z 10) then Int 0
  else
    let rawScore := Math_max (of_Z 0) (sub score (mul mistakes (of_Z 1))) in
    let ratePerMinute := mul (div rawScore elapsedSeconds) (of_Z 60) in
    let mean :=
      match gameType with symbol_match => of_Z 45 | _ => of_Z 30 end in
    let sd :=
      match gameType with symbol_match => of_Z 12 | _ => of_Z 8 end in
    let pri := add (of_Z 100) (mul (div (sub ratePerMinute mean) sd) (of_Z 15)) in
    Math_max_integral (Int 40) (Math_min_integral (Int 160) (Math_round pri)).

(** The two modes of the specification. *)
Inductive Mode : Type := match_mode | coding_mode.

Definition gameType_of_mode (mode : Mode) : GameType :=
  match mode with match_mode => symbol_match | coding_mode => coding end.







(** ** Computations that call [Math.random] *)

(** The result of running a piece of code from draw number [p] on:
    a value and the number of the next unused draw, or one of two ways in
    which the model stops. *)
Inductive outcome (A : Type) : Type :=
| Ok (a : A) (next : nat)
| Undefined   (* an array was read outside its bounds, or with an index
                 that is not an integer *)
| OutOfFuel.  (* a loop ran longer than the step bound it was given *)

Arguments Ok {A} a next.
Arguments Undefined {A}.
Arguments OutOfFuel {A}.

Definition Rand (A : Type) : Type := nat -> outcome A.

Definition ret {A} (a : A) : Rand A := fun p => Ok a p.

Definition bind {A B} (c : Rand A) (k : A -> Rand B) : Rand B :=
  fun p =>
    match c p with
    | Ok a p' => k a p'
    | Undefined => Undefined
    | OutOfFuel => OutOfFuel
    end.

Notation "x <- c ;; k" := (bind c (fun x => k))
  (at level 100, c at next level, right associativity).

(** [arr[i]] where the code goes on to use the element: outside the
    bounds JavaScript gives [undefined], and the model stops. *)
Definition read {T} (arr : list T) (i : Z) : Rand T :=
  fun p =>
    if i <? 0 then Undefined
    else match arr !! Z.to_nat i with
         | Some x => Ok x p
         | None => Undefined
         end.

(** What a call of [Math.random()] may return: a binary64 value [r] with
    [0 <= r < 1]. *)
Definition random_value (r : number) : Prop :=
  valid r = true /\ geb r (of_Z 0) = true /\ ltb r (of_Z 1) = true.

(** An array has at most 2^32 - 1 elements. *)
Definition max_array_length : Z := 4294967295.

Section Random.

(** The oracle behind [Math.random()]. *)
Variable rng : nat -> number.

Definition Math_random : Rand number := fun p => Ok (rng p) (S p).

(** [Math.floor(Math.random() * n)], the binary64 product floored.  The
    floor of a finite product is an integer; the model stops where the
    product is NaN or infinite, which it is for no value of
    [Math.random] and no length of an array. *)
Definition random_floor (n : Z) : Rand Z :=
  r <- Math_random ;;
  match Math_floor (mul r (of_Z n)) with
  | Int j => ret j
  | _ => fun _ => Undefined
  end.

(** ** shuffleArray *)

(** [[newArr[i], newArr[j]] = [newArr[j], newArr[i]]] *)
Definition swap {T} (newArr : list T) (i : nat) (j : Z) : Rand (list T) :=
  x <- read newArr j ;;
  y <- read newArr (Z.of_nat i) ;;
  ret (<[Z.to_nat j := y]> (<[i := x]> newArr)).

(** [for (let i = ...; i > 0; i--)], entered with the value of [i]. *)
Fixpoint shuffle_loop {T} (i : nat) (newArr : list T) : Rand (list T) :=
  match i with
  | O => ret newArr
  | S i' =>
      j <- random_floor (Z.of_nat i + 1) ;;
      newArr' <- swap newArr i j ;;
      shuffle_loop i' newArr'
  end.

Definition shuffleArray {T} (array : list T) : Rand (list T) :=
  shuffle_loop (length array - 1) array.

End Random.

(** [arr.slice(a, b)] for [0 <= a <= b]. *)
Definition slice {T} (a b : nat) (arr : list T) : list T :=
  take (b - a) (drop a arr).

(** ** The symbol pool *)

Inductive Symbol : Type :=
| Star | Circle | Triangle | Square | Hexagon | Diamond | Cloud | Sun | Moon
| Heart | Zap | Flame | Droplet | Leaf | Snowflake.

#[global] Instance Symbol_eq_dec : EqDecision Symbol.
Proof. solve_decision. Defined.

Definition ALL_SYMBOLS : list Symbol :=
  [Star; Circle; Triangle; Square; Hexagon; Diamond; Cloud; Sun; Moon; Heart;
   Zap; Flame; Droplet; Leaf; Snowflake].

Inductive Feedback : Type := correct | incorrect.

(** ** SymbolMatchGame *)

Module SymbolMatchGame.

Record State : Type := {
  round : nat;
  targets : list Symbol;
  searchGroup : list Symbol;
  isMatch : bool;
  feedback : option Feedback
}.

Definition initial : State :=
  {| round := 0; targets := []; searchGroup := []; isMatch := false;
     feedback := None |}.

Section Game.
Variable rng : nat -> number.

Definition generateRound (st : State) : Rand State :=
  shuffled <- shuffleArray rng ALL_SYMBOLS ;;
  let newTargets := slice 0 2 shuffled in
  r <- Math_random rng ;;
  let match_ := gtb r one_half in
  if match_ then
    k <- random_floor rng 2 ;;
    targetToInclude <- read newTargets k ;;
    let others := slice 2 6 shuffled in
    newSearchGroup <- shuffleArray rng (targetToInclude :: others) ;;
    ret {| round := round st; targets := newTargets;
           searchGroup := newSearchGroup; isMatch := match_;
           feedback := None |}
  else
    let newSearchGroup := slice 2 7 shuffled in
    ret {| round := round st; targets := newTargets;
           searchGroup := newSearchGroup; isMatch := match_;
           feedback := None |}.

End Game.

(** [handleAnswer]: the new score, mistakes and state (with the feedback). *)
Definition handleAnswer (userSaysMatch : bool) (score mistakes : Z)
    (st : State) : Z * Z * State :=
  if Bool.eqb userSaysMatch (isMatch st) then
    (score + 1, mistakes,
     {| round := round st; targets := targets st;
        searchGroup := searchGroup st; isMatch := isMatch st;
        feedback := Some correct |})
  else
    (score, mistakes + 1,
     {| round := round st; targets := targets st;
        searchGroup := searchGroup st; isMatch := isMatch st;
        feedback := Some incorrect |}).

End SymbolMatchGame.

(** ** CodingGame *)

Module CodingGame.

Record State : Type := {
  round : nat;
  map : gmap Z Symbol;
  buttonOrder : list Z;
  currentNumber : Z;
  feedback : option Feedback
}.

(** The [useState] initial values. *)
Definition initial : State :=
  {| round := 0; map := ∅; buttonOrder := []; currentNumber := 1;
     feedback := None |}.

(** [for (let i = 1; i <= 5; i++) newMap.set(i, shuffled[i - 1])],
    over the values [todo] that [i] still has to take. *)
Fixpoint set_loop (shuffled : list Symbol) (todo : list Z)
    (newMap : gmap Z Symbol) : Rand (gmap Z Symbol) :=
  match todo with
  | [] => ret newMap
  | i :: rest =>
      s <- read shuffled (i - 1) ;;
      set_loop shuffled rest (<[i := s]> newMap)
  end.

Section Game.
Variable rng : nat -> number.

(** [do { nextNum = Math.floor(Math.random() * 5) + 1 }
     while (nextNum === currentNumber)], at most [fuel] draws. *)
Fixpoint draw_nextNum (fuel : nat) (currentNumber : Z) : Rand Z :=
  match fuel with
  | O => fun _ => OutOfFuel
  | S fuel' =>
      k <- random_floor rng 5 ;;
      let nextNum := k + 1 in
      if nextNum =? currentNumber then draw_nextNum fuel' currentNumber
      else ret nextNum
  end.

Definition generateRound (fuel : nat) (st : State) : Rand State :=
  shuffled <- shuffleArray rng ALL_SYMBOLS ;;
  newMap <- set_loop shuffled [1; 2; 3; 4; 5] ∅ ;;
  newButtonOrder <- shuffleArray rng [1; 2; 3; 4; 5] ;;
  nextNum <- draw_nextNum fuel (currentNumber st) ;;
  ret {| round := round st; map := newMap; buttonOrder := newButtonOrder;
         currentNumber := nextNum; feedback := None |}.

End Game.

Definition handleAnswer (num : Z) (score mistakes : Z) (st : State)
    : Z * Z * State :=
  if num =? currentNumber st then
    (score + 1, mistakes,
     {| round := round st; map := map st; buttonOrder := buttonOrder st;
        currentNumber := currentNumber st; feedback := Some correct |})
  else
    (score, mistakes + 1,
     {| round := round st; map := map st; buttonOrder := buttonOrder st;
        currentNumber := currentNumber st; feedback := Some incorrect |}).

(** [setRound(r => r + 1)], 100 ms after the answer. *)
Definition nextRound (st : State) : State :=
  {| round := round st + 1; map := map st; buttonOrder := buttonOrder st;
     currentNumber := currentNumber st; feedback := feedback st |}.

Section Session.
Variable rng : nat -> number.
Variable fuel : nat.

(** The trials that follow the answers [answers]: every answer is
    followed by the round change and the effect that regenerates the
    trial.  The result lists the state after each regeneration. *)
Fixpoint trials (answers : list Z) (score mistakes : Z) (st : State)
    : Rand (list State) :=
  match answers with
  | [] => ret []
  | num :: rest =>
      let '(score', mistakes', st1) := handleAnswer num score mistakes st in
      st2 <- generateRound rng fuel (nextRound st1) ;;
      more <- trials rest score' mistakes' st2 ;;
      ret (st2 :: more)
  end.

(** A session: the effect of the first render generates the first trial
    from the initial state; [startGame] has set score and mistakes to 0. *)
Definition session (answers : list Z) : Rand (list State) :=
  st0 <- generateRound rng fuel initial ;;
  more <- trials answers 0 0 st0 ;;
  ret (st0 :: more).

End Session.

End CodingGame.

(** ** useGameTimer *)

(** [type TimeLimit = 30 | 60 | 120 | 'endless'] *)
Inductive TimeLimit : Type :=
| limit_30
| limit_60
| limit_120
| endless.

Definition is_endless (timeLimit : TimeLimit) : bool :=
  match timeLimit with endless => true | _ => false end.

Definition seconds (timeLimit : TimeLimit) : Z :=
  match timeLimit with
  | limit_30 => 30
  | limit_60 => 60
  | limit_120 => 120
  | endless => 0
  end.

Module useGameTimer.

(** The hook's state: [timeDisplay] and [elapsedRef.current]. *)
Record State : Type := {
  timeDisplay : Z;
  elapsedRef : Z
}.

(** [useState(timeLimit === 'endless' ? 0 : timeLimit)], [useRef(0)] *)
Definition initial (timeLimit : TimeLimit) : State :=
  {| timeDisplay := if is_endless timeLimit then 0 else seconds timeLimit;
     elapsedRef := 0 |}.

(** The [setInterval] callback, once per second. *)
Definition tick (timeLimit : TimeLimit) (st : State) : State :=
  let elapsed := elapsedRef st + 1 in
  {| timeDisplay :=
       if negb (is_endless timeLimit) then timeDisplay st - 1 else elapsed;
     elapsedRef := elapsed |}.

(** The effect on [[timeDisplay, timeLimit]]: the arguments with which it
    calls [onEnd]. *)
Definition expiry_effect (timeLimit : TimeLimit) (st : State) : list Z :=
  if negb (is_endless timeLimit) && (timeDisplay st <=? 0)
  then [elapsedRef st]
  else [].

(** After a render the effect runs if [timeDisplay] differs from the
    previous render ([timeLimit] is fixed while the game is mounted). *)
Definition after_render (timeLimit : TimeLimit) (prev st : State) : list Z :=
  if timeDisplay prev =? timeDisplay st then []
  else expiry_effect timeLimit st.

(** [stop]: the argument with which it calls [onEnd]. *)
Definition stop (st : State) : list Z := [elapsedRef st].

(** [n] ticks from [st]: the state reached and the calls of [onEnd] made
    on the way, in order. *)
Fixpoint ticks (timeLimit : TimeLimit) (n : nat) (st : State)
    : State * list Z :=
  match n with
  | O => (st, [])
  | S n' =>
      let st' := tick timeLimit st in
      let calls := after_render timeLimit st st' in
      let '(final, more) := ticks timeLimit n' st' in
      (final, calls ++ more)
  end.

(** The hook from its first render (where every effect runs) through
    [n] ticks. *)
Definition run (timeLimit : TimeLimit) (n : nat) : State * list Z :=
  let st := initial timeLimit in
  let '(final, calls) := ticks timeLimit n st in
  (final, expiry_effect timeLimit st ++ calls).

End useGameTimer.

(** ** App *)

(** [type Screen = 'home' | 'symbol-match' | 'coding' | 'result' | 'stats'] *)
Inductive Screen : Type :=
| screen_home
| screen_symbol_match
| screen_coding
| screen_result
| screen_stats.

Module StatEntry.

Record t : Type := {
  id : string;
  date : Z;
  gameType : GameType;
  pri : integral;
  score : Z;
  mistakes : Z;
  timeLimit : TimeLimit;
  elapsed : Z
}.

End StatEntry.

Module App.

(** The [useState] cells of [App] that the engine uses. *)
Record State : Type := {
  screen : Screen;
  gameType : GameType;
  timeLimit : TimeLimit;
  score : Z;
  mistakes : Z;
  stats : list StatEntry.t;
  currentPri : integral;
  currentElapsed : Z
}.

(** The state and the [localStorage] item ['pri_stats']: [None] while the
    item is absent, otherwise the list whose JSON text it holds. *)
Record World : Type := {
  state : State;
  pri_stats : option (list StatEntry.t)
}.

Definition initial : State :=
  {| screen := screen_home; gameType := null; timeLimit := limit_60;
     score := 0; mistakes := 0; stats := []; currentPri := Int 0;
     currentElapsed := 0 |}.

Definition setCurrentPri (v : integral) (w : World) : World :=
  let s := state w in
  {| state := {| screen := screen s; gameType := gameType s;
                 timeLimit := timeLimit s; score := score s;
                 mistakes := mistakes s; stats := stats s;
                 currentPri := v; currentElapsed := currentElapsed s |};
     pri_stats := pri_stats w |}.

Definition setCurrentElapsed (v : Z) (w : World) : World :=
  let s := state w in
  {| state := {| screen := screen s; gameType := gameType s;
                 timeLimit := timeLimit s; score := score s;
                 mistakes := mistakes s; stats := stats s;
                 currentPri := currentPri s; currentElapsed := v |};
     pri_stats := pri_stats w |}.

Definition setStats (v : list StatEntry.t) (w : World) : World :=
  let s := state w in
  {| state := {| screen := screen s; gameType := gameType s;
                 timeLimit := timeLimit s; score := score s;
                 mistakes := mistakes s; stats := v;
                 currentPri := currentPri s;
                 currentElapsed := currentElapsed s |};
     pri_stats := pri_stats w |}.

Definition setScreen (v : Screen) (w : World) : World :=
  let s := state w in
  {| state := {| screen := v; gameType := gameType s;
                 timeLimit := timeLimit s; score := score s;
                 mistakes := mistakes s; stats := stats s;
                 currentPri := currentPri s;
                 currentElapsed := currentElapsed s |};
     pri_stats := pri_stats w |}.

(** [localStorage.setItem('pri_stats', JSON.stringify(v))] *)
Definition localStorage_setItem (v : list StatEntry.t) (w : World) : World :=
  {| state := state w; pri_stats := Some v |}.

(** [endGame], as created by the render that saw the state [captured]
    ([useCallback] lists every state cell the body reads, so each render
    with a changed cell creates a new callback).  [now_id] and [now_date]
    are what the two calls of [Date.now()] return. *)
Definition endGame (captured : State) (now_id now_date : Z)
    (finalElapsed : Z) (w : World) : World :=
  let pri :=
    calculatePRI (of_Z (score captured)) (of_Z (mistakes captured))
      (of_Z finalElapsed) (gameType captured) in
  let w := setCurrentPri pri w in
  let w := setCurrentElapsed finalElapsed w in
  let w :=
    if 10 <=? finalElapsed then
      let newStat :=
        {| StatEntry.id := pretty now_id;
           StatEntry.date := now_date;
           StatEntry.gameType := gameType captured;
           StatEntry.pri := pri;
           StatEntry.score := score captured;
           StatEntry.mistakes := mistakes captured;
           StatEntry.timeLimit := timeLimit captured;
           StatEntry.elapsed := finalElapsed |} in
      let updatedStats := stats captured ++ [newStat] in
      let w := setStats updatedStats w in
      localStorage_setItem updatedStats w
    else w in
  setScreen screen_result w.

(** The record that a call of [endGame] builds. *)
Definition newStat_of (captured : State) (now_id now_date finalElapsed : Z)
    : StatEntry.t :=
  {| StatEntry.id := pretty now_id;
     StatEntry.date := now_date;
     StatEntry.gameType := gameType captured;
     StatEntry.pri :=
       calculatePRI (of_Z (score captured)) (of_Z (mistakes captured))
         (of_Z finalElapsed) (gameType captured);
     StatEntry.score := score captured;
     StatEntry.mistakes := mistakes captured;
     StatEntry.timeLimit := timeLimit captured;
     StatEntry.elapsed := finalElapsed |}.

(** The callback that the latest render of the world [w] hands out. *)
Definition current_endGame (w : World) : Z -> Z -> Z -> World -> World :=
  endGame (state w).

End App.

(** ** Predicates and sample inputs used by the statements below *)

(** [x] is not NaN. *)
Definition not_nan (x : number) : Prop := is_nan x = false.

(** [x] is finite and not a zero. *)
Definition nonzero_finite (x : number) : Prop :=
  match x with S754_finite _ _ _ => True | _ => False end.

(** The binary64 values of [0.25], [0.75] and [0.1]. *)
Definition one_quarter : number := div (of_Z 1) (of_Z 4).
Definition three_quarters : number := div (of_Z 3) (of_Z 4).
Definition one_tenth : number := div (of_Z 1) (of_Z 10).

(** An oracle that cycles through the binary64 values of 0, 0.2, 0.4, 0.6
    and 0.8. *)
Definition rng_cycle (n : nat) : number :=
  div (of_Z (Z.of_nat (n mod 5))) (of_Z 5).

(** An oracle whose first draw for the target digit (draw 18, after the 14
    and 4 draws of the two shuffles) gives the digit 1. *)
Definition rng_first_one (n : nat) : number :=
  if (n =? 18)%nat then one_tenth else one_half.



(** The target digits of the trials of a session. *)
Definition targetDigits (r : outcome (list CodingGame.State))
    : outcome (list Z) :=
  match r with
  | Ok l p => Ok (CodingGame.currentNumber <$> l) p
  | Undefined => Undefined
  | OutOfFuel => OutOfFuel
  end.

(** A match session of 60 seconds about to be finalized: 30 correct
    answers, 5 mistakes, an empty history. *)
Definition finishing_session : App.World :=
  {| App.state :=
       {| App.screen := screen_symbol_match; App.gameType := symbol_match;
          App.timeLimit := limit_60; App.score := 30; App.mistakes := 5;
          App.stats := []; App.currentPri := Int 0;
          App.currentElapsed := 0 |};
     App.pri_stats := Some [] |}.

(** The same session after a first call of the end callback, at
    millisecond 1000 with 60 seconds elapsed. *)
Definition finalized_once : App.World :=
  App.current_endGame finishing_session 1000 1000 60 finishing_session.

(** ** The events of App *)

Module Handlers.

Import App.

(** [setGameType(v)], [setTimeLimit(v)], [setScore(v)], [setMistakes(v)] *)
Definition setGameType (v : GameType) (w : World) : World :=
  let s := state w in
  {| state := {| screen := screen s; gameType := v;
                 timeLimit := timeLimit s; score := score s;
                 mistakes := mistakes s; stats := stats s;
                 currentPri := currentPri s;
                 currentElapsed := currentElapsed s |};
     pri_stats := pri_stats w |}.

Definition setTimeLimit (v : TimeLimit) (w : World) : World :=
  let s := state w in
  {| state := {| screen := screen s; gameType := gameType s;
                 timeLimit := v; score := score s;
                 mistakes := mistakes s; stats := stats s;
                 currentPri := currentPri s;
                 currentElapsed := currentElapsed s |};
     pri_stats := pri_stats w |}.

Definition setScore (v : Z) (w : World) : World :=
  let s := state w in
  {| state := {| screen := screen s; gameType := gameType s;
                 timeLimit := timeLimit s; score := v;
                 mistakes := mistakes s; stats := stats s;
                 currentPri := currentPri s;
                 currentElapsed := currentElapsed s |};
     pri_stats := pri_stats w |}.

Definition setMistakes (v : Z) (w : World) : World :=
  let s := state w in
  {| state := {| screen := screen s; gameType := gameType s;
                 timeLimit := timeLimit s; score := score s;
                 mistakes := v; stats := stats s;
                 currentPri := currentPri s;
                 currentElapsed := currentElapsed s |};
     pri_stats := pri_stats w |}.

(** [startGame(type)] as the two buttons of the home screen call it, with
    ['symbol-match'] or ['coding']. *)
Definition startGame (type : Mode) (w : World) : World :=
  let w := setGameType (gameType_of_mode type) w in
  let w := setScore 0 w in
  let w := setMistakes 0 w in
  setScreen
    match type with
    | match_mode => screen_symbol_match
    | coding_mode => screen_coding
    end w.

(** What happens to [App]: a time limit is picked, a game is started, an
    answer is judged by the game (its [setScore(s => s + 1)] or
    [setMistakes(m => m + 1)]), the game calls the [onEnd] it was given
    last, the statistics or the home screen is opened. *)
Inductive Event : Type :=
| PickTimeLimit (t : TimeLimit)
| Start (type : Mode)
| AnswerCorrect
| AnswerWrong
| End (now_id now_date finalElapsed : Z)
| ShowStats
| GoHome.

Definition handle (ev : Event) (w : World) : World :=
  match ev with
  | PickTimeLimit t => setTimeLimit t w
  | Start type => startGame type w
  | AnswerCorrect => setScore (score (state w) + 1) w
  | AnswerWrong => setMistakes (mistakes (state w) + 1) w
  | End now_id now_date finalElapsed =>
      current_endGame w now_id now_date finalElapsed w
  | ShowStats => setScreen screen_stats w
  | GoHome => setScreen screen_home w
  end.

Fixpoint run (events : list Event) (w : World) : World :=
  match events with
  | [] => w
  | ev :: rest => run rest (handle ev w)
  end.

(** The sessions among [events] that last at least 10 seconds. *)
Definition is_measured (ev : Event) : bool :=
  match ev with End _ _ finalElapsed => 10 <=? finalElapsed | _ => false end.

Definition is_answer (ev : Event) : bool :=
  match ev with AnswerCorrect | AnswerWrong => true | _ => false end.

Definition is_correct (ev : Event) : bool :=
  match ev with AnswerCorrect => true | _ => false end.

Definition is_wrong (ev : Event) : bool :=
  match ev with AnswerWrong => true | _ => false end.

End Handlers.

(** ** ResultScreen *)

Module ResultScreen.

(** [total = score + mistakes],
    [accuracy = total > 0 ? Math.round((score / total) * 100) : 0] *)
Definition accuracy (score mistakes : number) : integral :=
  let total := add score mistakes in
  if ltb (of_Z 0) total
  then Math_round (mul (div score total) (of_Z 100))
  else Int 0.

(** The index panel: the text for a session too short to measure, or the
    index. *)
Inductive IndexPanel : Type :=
| unmeasurable
| shown (pri : integral).

(** [elapsed < 10 ? ... : ... {pri} ...] *)
Definition indexPanel (pri : integral) (elapsed : Z) : IndexPanel :=
  if elapsed <? 10 then unmeasurable else shown pri.

(** The panel for the props that [App] passes. *)
Definition panel_of (s : App.State) : IndexPanel :=
  indexPanel (App.currentPri s) (App.currentElapsed s).

End ResultScreen.

(** ** The theme *)

Module Theme.

(** The initial [darkMode]: [saved] is the item ['pri_theme'] of
    [localStorage] ([None] when absent; the empty string is falsy too),
    [prefersDark] is what the media query gives. *)
Definition initial (saved : option string) (prefersDark : bool) : bool :=
  match saved with
  | Some s => if String.eqb s "" then prefersDark else String.eqb s "dark"
  | None => prefersDark
  end.

(** The effect on [[darkMode]]: the text it stores. *)
Definition stored (darkMode : bool) : string :=
  if darkMode then "dark" else "white".

Definition toggleDarkMode (darkMode : bool) : bool := negb darkMode.

End Theme.

(** ** Answers of a player who reads the trial *)

(** Whether a target of the trial is in its search list. *)
Definition target_present (st : SymbolMatchGame.State) : bool :=
  existsb (fun t => bool_decide (t ∈ SymbolMatchGame.searchGroup st))
    (SymbolMatchGame.targets st).

(** An oracle that gives the same value at every call. *)
Definition rng_const (r : number) (n : nat) : number := r.


(** An oracle that answers from [rng1] for the draws before draw [k] and
    from [rng2] from draw [k] on. *)
Definition rng_splice (k : nat) (rng1 rng2 : nat -> number) (n : nat)
    : number :=
  if (n <? k)%nat then rng1 n else rng2 n.

(** A value of [Math.random] for which [Math.floor(Math.random() * n)] is
    [j]: the multiple [k / 2^53] of [2^-53] with the least [k] for which
    [k * n / 2^53] is at least [j + 1/2]. *)
Definition draw_for (j n : Z) : number :=
  match of_Z (((2 * j + 1) * 2 ^ 52 + n - 1) `div` n) with
  | S754_finite s m e => S754_finite s m (e - 53)
  | x => x
  end.

(* ================================================================== *)
(** * Properties *)

(** ** Binary64 arithmetic *)

Section Binary64.

Lemma shr_1_nonneg mrs : 0 <= shr_m mrs -> 0 <= shr_m (shr_1 mrs).
Proof.
  destruct mrs as [m r s]; simpl.
  destruct m as [|p|p]; simpl; [lia| |lia].
  destruct p; simpl; lia.
Qed.

Lemma iter_pos_shr_1_nonneg p mrs :
  0 <= shr_m mrs -> 0 <= shr_m (SpecFloat.iter_pos shr_1 p mrs).
Proof.
  revert mrs; induction p as [p IH|p IH|]; intros mrs H; simpl.
  - apply IH, IH, shr_1_nonneg, H.
  - apply IH, IH, H.
  - apply shr_1_nonneg, H.
Qed.

Lemma shr_nonneg mrs e n : 0 <= shr_m mrs -> 0 <= shr_m (fst (shr mrs e n)).
Proof.
  intros H; destruct n; simpl; trivial.
  apply iter_pos_shr_1_nonneg, H.
Qed.

Lemma shr_m_of_loc m l : shr_m (shr_record_of_loc m l) = m.
Proof. destruct l as [|[]]; reflexivity. Qed.

Lemma shr_fexp_nonneg m e l :
  0 <= m -> 0 <= shr_m (fst (shr_fexp prec emax m e l)).
Proof.
  intros H; unfold shr_fexp. apply shr_nonneg. rewrite shr_m_of_loc; exact H.
Qed.

Lemma round_nearest_even_nonneg m l : 0 <= m -> 0 <= round_nearest_even m l.
Proof.
  intros H; destruct l as [|[]]; simpl; try lia.
  destruct (Z.even m); lia.
Qed.

(** Rounding a non-negative mantissa never produces NaN. *)
Lemma binary_round_aux_not_nan sx mx ex lx :
  0 <= mx -> not_nan (binary_round_aux prec emax sx mx ex lx).
Proof.
  intros H; unfold binary_round_aux, not_nan.
  pose proof (shr_fexp_nonneg mx ex lx H) as H1.
  destruct (shr_fexp prec emax mx ex lx) as [mrs' e']; simpl in H1.
  pose proof (shr_fexp_nonneg _ e' loc_Exact
                (round_nearest_even_nonneg _ (loc_of_shr_record mrs') H1)) as H2.
  destruct (shr_fexp prec emax _ e' loc_Exact) as [mrs'' e'']; simpl in H2.
  destruct (shr_m mrs'') as [|p|p]; [reflexivity| |lia].
  destruct (e'' <=? emax - prec); reflexivity.
Qed.

Lemma binary_normalize_not_nan m e sz :
  not_nan (binary_normalize prec emax m e sz).
Proof.
  destruct m as [|p|p]; simpl; [reflexivity| |];
    unfold binary_round;
    destruct (shl_align _ _ _) as [mz ez];
    apply binary_round_aux_not_nan; lia.
Qed.

Lemma mul_not_nan x y : not_nan x -> nonzero_finite y -> not_nan (mul x y).
Proof.
  destruct x as [sx|sx| |sx mx ex], y as [sy|sy| |sy my ey];
    simpl; intros Hx Hy; try reflexivity; try contradiction; try discriminate.
  apply binary_round_aux_not_nan; lia.
Qed.

Lemma div_not_nan x y : not_nan x -> nonzero_finite y -> not_nan (div x y).
Proof.
  destruct x as [sx|sx| |sx mx ex], y as [sy|sy| |sy my ey];
    simpl; intros Hx Hy; try reflexivity; try contradiction; try discriminate.
  unfold SFdiv_core_binary.
  set (m' := match _ with Z0 => _ | Z.pos _ => _ | Z.neg _ => _ end).
  assert (Hm' : 0 <= m').
  { subst m'. destruct (_ - _ - _); [lia| |lia]. now apply Z.shiftl_nonneg. }
  pose proof (Z.div_pos m' (Z.pos my) Hm' ltac:(lia)) as Hq.
  unfold Z.div in Hq.
  destruct (Z.div_eucl m' (Z.pos my)) as [q r]; simpl in Hq.
  apply binary_round_aux_not_nan, Hq.
Qed.

Lemma sub_not_nan_r x y : not_nan x -> nonzero_finite y -> not_nan (sub x y).
Proof.
  destruct x as [sx|sx| |sx mx ex], y as [sy|sy| |sy my ey];
    simpl; intros Hx Hy; try reflexivity; try contradiction; try discriminate.
  apply binary_normalize_not_nan.
Qed.

Lemma sub_not_nan_l x y : is_finite x = true -> not_nan y -> not_nan (sub x y).
Proof.
  destruct x as [sx|sx| |sx mx ex], y as [sy|sy| |sy my ey];
    simpl; intros Hx Hy; try reflexivity; try discriminate.
  - destruct sx, sy; reflexivity.
  - apply binary_normalize_not_nan.
Qed.

Lemma add_not_nan_l x y : nonzero_finite x -> not_nan y -> not_nan (add x y).
Proof.
  destruct x as [sx|sx| |sx mx ex], y as [sy|sy| |sy my ey];
    simpl; intros Hx Hy; try reflexivity; try contradiction; try discriminate.
  apply binary_normalize_not_nan.
Qed.

Lemma Math_max_not_nan x y : not_nan x -> not_nan y -> not_nan (Math_max x y).
Proof.
  unfold Math_max, not_nan.
  destruct x as [[]| | |], y as [[]| | |]; simpl; intros Hx Hy;
    try discriminate; try reflexivity;
    match goal with |- context [if ?b then _ else _] => destruct b end;
    reflexivity.
Qed.

(** Multiplying by the literal [1.0] changes nothing. *)
Lemma digits2_pos_shift52 m :
  Z.pos (digits2_pos (4503599627370496 * m)) = Z.pos (digits2_pos m) + 52.
Proof. cbv [Pos.mul]. cbn [digits2_pos]. rewrite !Pos2Z.inj_succ. lia. Qed.

Lemma iter_shr_1_52 m :
  SpecFloat.iter_pos shr_1 52
    (Build_shr_record (Z.pos (4503599627370496 * m)) false false)
  = Build_shr_record (Z.pos m) false false.
Proof. reflexivity. Qed.

Lemma of_Z_1 : of_Z 1 = S754_finite false 4503599627370496 (-52).
Proof. reflexivity. Qed.

Lemma mul_one x : valid x = true -> mul x (of_Z 1) = x.
Proof.
  rewrite of_Z_1.
  destruct x as [sx|sx| |sx mx ex]; cbn [mul SFmul]; intros Hv;
    rewrite ?xorb_false_r; try reflexivity.
  unfold valid, valid_binary, bounded, canonical_mantissa in Hv.
  apply andb_prop in Hv as [Hc Hb].
  apply Z.eqb_eq in Hc.
  unfold binary_round_aux, shr_fexp, Zdigits2.
  rewrite (Pos.mul_comm mx), digits2_pos_shift52.
  replace (Z.pos (digits2_pos mx) + 52 + (ex + -52))
    with (Z.pos (digits2_pos mx) + ex) by lia.
  rewrite Hc. replace (ex - (ex + -52)) with 52 by lia.
  cbn [shr shr_record_of_loc]. rewrite iter_shr_1_52.
  cbn [shr_m loc_of_shr_record round_nearest_even].
  replace (ex + -52 + 52) with ex by lia.
  rewrite Hc, Z.sub_diag. cbn [shr shr_record_of_loc shr_m].
  rewrite Hb. reflexivity.
Qed.

(** Comparison is antisymmetric. *)
Lemma SFcompare_antisym x y :
  SFcompare y x = option_map CompOpp (SFcompare x y).
Proof.
  destruct x as [[]|[]| |[] mx ex], y as [[]|[]| |[] my ey];
    simpl; try reflexivity;
    rewrite (Z.compare_antisym ex ey); destruct (ex ?= ey); simpl;
    try reflexivity;
    rewrite ?(Pos.compare_cont_antisym mx my Eq); reflexivity.
Qed.

Lemma geb_true_ltb_false x y : geb x y = true -> ltb x y = false.
Proof.
  unfold geb, ltb, SFleb, SFltb. rewrite (SFcompare_antisym y x).
  destruct (SFcompare y x) as [[]|]; simpl; congruence.
Qed.

Lemma ltb_true_geb_false x y : ltb x y = true -> geb x y = false.
Proof.
  unfold geb, ltb, SFleb, SFltb. rewrite (SFcompare_antisym y x).
  destruct (SFcompare y x) as [[]|]; simpl; congruence.
Qed.

(** A finite number that is at least 10 is not a zero. *)
Lemma geb_10_nonzero_finite x :
  is_finite x = true -> geb x (of_Z 10) = true -> nonzero_finite x.
Proof.
  destruct x as [sx|sx| |sx mx ex]; simpl; try discriminate; trivial.
Qed.

(** [Math.round] gives a nearest integer, the upper one on a tie: with
    [x = v * 2^e] and [z = Math.round(x)], [x - 1/2 < z <= x + 1/2]. *)
Lemma round_half_up_nearest (s : bool) (m : positive) (e : Z) :
  let v := if s then Z.neg m else Z.pos m in
  let z := round_half_up s m e in
  (0 <= e -> z = v * 2 ^ e) /\
  (e < 0 -> 2 * v - 2 ^ (- e) < 2 * z * 2 ^ (- e) <= 2 * v + 2 ^ (- e)).
Proof.
  intros v z; subst z; unfold round_half_up; fold v. split; intros He.
  - apply Z.leb_le in He. rewrite He. reflexivity.
  - destruct (Z.leb_spec 0 e) as [?|_]; [lia|].
    assert (Hd : 0 < 2 ^ (- e)) by (apply Z.pow_pos_nonneg; lia).
    assert (Hh : 2 ^ (- e) = 2 * 2 ^ (- e - 1)).
    { rewrite <- Z.pow_succ_r by lia. f_equal. lia. }
    pose proof (Z.div_mod (v + 2 ^ (- e - 1)) (2 ^ (- e)) ltac:(lia)) as Hdm.
    pose proof (Z.mod_pos_bound (v + 2 ^ (- e - 1)) (2 ^ (- e)) Hd) as Hr.
    set (q := (v + 2 ^ (- e - 1)) `div` 2 ^ (- e)) in *.
    set (r := (v + 2 ^ (- e - 1)) `mod` 2 ^ (- e)) in *.
    set (d := 2 ^ (- e)) in *. set (h := 2 ^ (- e - 1)) in *.
    nia.
Qed.

Lemma Math_round_not_nan x : not_nan x -> Math_round x <> NaN.
Proof. destruct x; simpl; intros H; discriminate. Qed.

(** [Math.max(40, Math.min(160, r))] is an integer of [40..160] unless
    [r] is NaN. *)
Lemma clamp_range r :
  r <> NaN ->
  exists z, Math_max_integral (Int 40) (Math_min_integral (Int 160) r) = Int z
            /\ 40 <= z <= 160.
Proof.
  destruct r as [|[]|n]; intros Hr; [congruence| | |].
  - exists 40. split; [reflexivity|lia].
  - exists 160. split; [reflexivity|lia].
  - cbn [Math_min_integral integral_ltb].
    destruct (Z.ltb_spec n 160); cbn [Math_max_integral integral_ltb].
    + destruct (Z.ltb_spec 40 n); eexists; split; try reflexivity; lia.
    + exists 160. split; [reflexivity|lia].
Qed.


(** The value that is rounded is never NaN when the inputs are finite and
    the elapsed time is not zero. *)
Lemma pri_not_nan score mistakes elapsedSeconds mean sd :
  is_finite score = true -> is_finite mistakes = true ->
  nonzero_finite elapsedSeconds -> nonzero_finite mean -> nonzero_finite sd ->
  not_nan
    (add (of_Z 100)
       (mul (div (sub (mul (div (Math_max (of_Z 0)
                                   (sub score (mul mistakes (of_Z 1))))
                              elapsedSeconds) (of_Z 60)) mean) sd)
          (of_Z 15))).
Proof.
  intros Hs Hm He Hmean Hsd.
  assert (Hm' : not_nan mistakes) by (destruct mistakes; done).
  apply add_not_nan_l; [exact I|].
  apply mul_not_nan; [|exact I].
  apply div_not_nan; [|exact Hsd].
  apply sub_not_nan_r; [|exact Hmean].
  apply mul_not_nan; [|exact I].
  apply div_not_nan; [|exact He].
  apply Math_max_not_nan; [reflexivity|].
  apply sub_not_nan_l; [exact Hs|].
  apply mul_not_nan; [exact Hm'|exact I].
Qed.

(** ** Rounding in binary64 multiplication *)

Lemma shr_1_spec m r s :
  0 <= m ->
  shr_m (shr_1 (Build_shr_record m r s)) = m / 2
  /\ shr_r (shr_1 (Build_shr_record m r s)) = Z.odd m.
Proof.
  intros Hm. rewrite <- Z.div2_div.
  destruct m as [|[p|p|]|]; try lia; split; reflexivity.
Qed.

Lemma iter_pos_shr_1_spec p : forall m r s,
  0 <= m ->
  shr_m (SpecFloat.iter_pos shr_1 p (Build_shr_record m r s)) = m / 2 ^ Z.pos p
  /\ shr_r (SpecFloat.iter_pos shr_1 p (Build_shr_record m r s))
     = Z.odd (m / 2 ^ (Z.pos p - 1)).
Proof.
  induction p as [p IH|p IH|]; intros m r s Hm; cbn [SpecFloat.iter_pos].
  - destruct (shr_1_spec m r s Hm) as [H1 _].
    destruct (shr_1 (Build_shr_record m r s)) as [m1 r1 s1]. cbn in H1.
    assert (Hm1 : 0 <= m1) by (subst m1; apply Z.div_pos; lia).
    destruct (IH m1 r1 s1 Hm1) as [H2 _].
    destruct (SpecFloat.iter_pos shr_1 p (Build_shr_record m1 r1 s1)) as [m2 r2 s2].
    cbn in H2.
    assert (Hm2 : 0 <= m2) by (subst m2; apply Z.div_pos; lia).
    destruct (IH m2 r2 s2 Hm2) as [H3 H4].
    rewrite H3, H4, H2, H1.
    assert (Hp : 0 < 2 ^ Z.pos p) by (apply Z.pow_pos_nonneg; lia).
    assert (Hp1 : 0 < 2 ^ (Z.pos p - 1)) by (apply Z.pow_pos_nonneg; lia).
    rewrite !Z.div_div by lia.
    split; f_equal; [|f_equal].
    + rewrite (Pos2Z.inj_xI p).
      replace (2 * Z.pos p + 1) with (1 + Z.pos p + Z.pos p) by lia.
      rewrite !Z.pow_add_r by lia. lia.
    + rewrite (Pos2Z.inj_xI p).
      replace (2 * Z.pos p + 1 - 1) with (1 + Z.pos p + (Z.pos p - 1)) by lia.
      rewrite !Z.pow_add_r by lia. lia.
  - destruct (IH m r s Hm) as [H2 _].
    destruct (SpecFloat.iter_pos shr_1 p (Build_shr_record m r s)) as [m2 r2 s2].
    cbn in H2.
    assert (Hm2 : 0 <= m2) by (subst m2; apply Z.div_pos; [lia|apply Z.pow_pos_nonneg; lia]).
    destruct (IH m2 r2 s2 Hm2) as [H3 H4].
    rewrite H3, H4, H2.
    assert (Hp : 0 < 2 ^ Z.pos p) by (apply Z.pow_pos_nonneg; lia).
    assert (Hp1 : 0 < 2 ^ (Z.pos p - 1)) by (apply Z.pow_pos_nonneg; lia).
    rewrite !Z.div_div by lia.
    split; f_equal; [|f_equal].
    + rewrite (Pos2Z.inj_xO p).
      replace (2 * Z.pos p) with (Z.pos p + Z.pos p) by lia.
      rewrite !Z.pow_add_r by lia. lia.
    + rewrite (Pos2Z.inj_xO p).
      replace (2 * Z.pos p - 1) with (Z.pos p + (Z.pos p - 1)) by lia.
      rewrite !Z.pow_add_r by lia. lia.
  - destruct (shr_1_spec m r s Hm) as [H1 H2]. rewrite H1, H2.
    split; [reflexivity|]. change (2 ^ (1 - 1)) with 1. rewrite Z.div_1_r. reflexivity.
Qed.

Lemma round_bit_half (P k : Z) :
  0 <= P -> 0 < k ->
  Z.odd (P / 2 ^ (k - 1)) = true -> 2 ^ (k - 1) <= P mod 2 ^ k.
Proof.
  intros HP Hk Hodd.
  set (h := 2 ^ (k - 1)) in *.
  assert (Hh : 0 < h) by (apply Z.pow_pos_nonneg; lia).
  assert (HW : 2 ^ k = 2 * h).
  { subst h. rewrite <- Z.pow_succ_r by lia. f_equal. lia. }
  rewrite HW.
  destruct (Z.lt_ge_cases (P mod (2 * h)) h) as [Hlt|Hge]; [exfalso|exact Hge].
  pose proof (Z.mod_pos_bound P (2 * h) ltac:(lia)) as Hb.
  pose proof (Z.div_mod P (2 * h) ltac:(lia)) as Hdm.
  assert (Hq : P / h = 2 * (P / (2 * h))).
  { symmetry. apply (Z.div_unique_pos P h _ (P mod (2 * h))); lia. }
  rewrite Hq, Z.odd_mul in Hodd. discriminate.
Qed.

Lemma round_after_shift (P : Z) (k : positive) :
  0 <= P ->
  let mrs := SpecFloat.iter_pos shr_1 k (Build_shr_record P false false) in
  let m1 := round_nearest_even (shr_m mrs) (loc_of_shr_record mrs) in
  P / 2 ^ Z.pos k <= m1 <= P / 2 ^ Z.pos k + 1
  /\ 2 * (m1 * 2 ^ Z.pos k) <= 2 * P + 2 ^ Z.pos k
  /\ P < m1 * 2 ^ Z.pos k + 2 ^ Z.pos k.
Proof.
  intros HP mrs m1.
  destruct (iter_pos_shr_1_spec k P false false HP) as [Hm Hr].
  fold mrs in Hm, Hr.
  assert (HW : 0 < 2 ^ Z.pos k) by (apply Z.pow_pos_nonneg; lia).
  pose proof (Z.mod_pos_bound P (2 ^ Z.pos k) HW) as Hb.
  pose proof (Z.div_mod P (2 ^ Z.pos k) ltac:(lia)) as Hdm.
  assert (Hhalf : shr_r mrs = true -> 2 * (P mod 2 ^ Z.pos k) >= 2 ^ Z.pos k).
  { intros Ht. rewrite Hr in Ht.
    pose proof (round_bit_half P (Z.pos k) HP ltac:(lia) Ht) as Hh.
    assert (2 ^ Z.pos k = 2 * 2 ^ (Z.pos k - 1)).
    { rewrite <- Z.pow_succ_r by lia. f_equal. lia. }
    lia. }
  assert (Hm1 : m1 = P / 2 ^ Z.pos k
                \/ (m1 = P / 2 ^ Z.pos k + 1 /\ shr_r mrs = true)).
  { subst m1. rewrite <- Hm. destruct mrs as [m [] []]; cbn;
      try (left; reflexivity); try (right; split; reflexivity).
    destruct (Z.even m); [left|right; split]; reflexivity. }
  set (q := P / 2 ^ Z.pos k) in *. set (W := 2 ^ Z.pos k) in *.
  set (rem := P mod W) in *.
  destruct Hm1 as [->|[-> Ht]].
  - split; [lia|]. nia.
  - specialize (Hhalf Ht). split; [lia|]. nia.
Qed.

Lemma digits2_pos_bounds m :
  2 ^ (Z.pos (digits2_pos m) - 1) <= Z.pos m < 2 ^ Z.pos (digits2_pos m).
Proof.
  induction m as [m IH|m IH|]; cbn [digits2_pos]; [| |split; reflexivity].
  - rewrite Pos2Z.inj_succ, Pos2Z.inj_xI.
    replace (Z.succ (Z.pos (digits2_pos m)) - 1)
      with (Z.succ (Z.pos (digits2_pos m) - 1)) by lia.
    rewrite !Z.pow_succ_r by lia. lia.
  - rewrite Pos2Z.inj_succ, (Pos2Z.inj_xO m).
    replace (Z.succ (Z.pos (digits2_pos m)) - 1)
      with (Z.succ (Z.pos (digits2_pos m) - 1)) by lia.
    rewrite !Z.pow_succ_r by lia. lia.
Qed.

Lemma fexp_ge e : -1074 <= fexp prec emax e /\ e - 53 <= fexp prec emax e
  /\ (fexp prec emax e = e - 53 \/ fexp prec emax e = -1074).
Proof. unfold fexp, emin, prec, emax. lia. Qed.

Lemma pow2_le_digits (m : positive) (t : Z) :
  0 <= t -> Z.pos m <= 2 ^ t -> Z.pos (digits2_pos m) <= t + 1.
Proof.
  intros Ht Hm. pose proof (digits2_pos_bounds m) as [Hlo _].
  destruct (Z.le_gt_cases (Z.pos (digits2_pos m)) (t + 1)) as [H|H]; [exact H|].
  exfalso.
  assert (2 ^ (t + 1) <= 2 ^ (Z.pos (digits2_pos m) - 1))
    by (apply Z.pow_le_mono_r; lia).
  rewrite Z.pow_add_r in H0 by lia. change (2 ^ 1) with 2 in H0.
  assert (0 < 2 ^ t) by (apply Z.pow_pos_nonneg; lia). lia.
Qed.

Lemma binary_round_aux_bounds s (P : positive) (E : Z) :
  let e1 := Z.max E (fexp prec emax (Z.pos (digits2_pos P) + E)) in
  exists m2 e2,
    binary_round_aux prec emax s (Z.pos P) E loc_Exact
    = match m2 with
      | 0 => S754_zero s
      | Z.pos m =>
          if e2 <=? emax - prec then S754_finite s m e2 else S754_infinity s
      | Z.neg _ => S754_nan
      end
    /\ 0 <= m2 /\ e1 <= e2 <= e1 + 1
    /\ 2 * (m2 * 2 ^ (e2 - E)) <= 2 * Z.pos P + 2 ^ (e1 - E)
    /\ Z.pos P < m2 * 2 ^ (e2 - E) + 2 ^ (e1 - E).
Proof.
  intros e1. subst e1.
  unfold binary_round_aux, shr_fexp. cbn [Zdigits2 shr_record_of_loc].
  set (f1 := fexp prec emax (Z.pos (digits2_pos P) + E)).
  destruct (fexp_ge (Z.pos (digits2_pos P) + E)) as (Hmin & Hf1 & _).
  fold f1 in Hmin, Hf1.
  pose proof (digits2_pos_bounds P) as [_ HPhi].
  destruct (f1 - E) as [|k|k] eqn:Hk.
  - cbn [shr shr_m loc_of_shr_record round_nearest_even Zdigits2 shr_record_of_loc].
    fold f1. rewrite Hk. cbn [shr shr_m].
    exists (Z.pos P), E. split; [reflexivity|].
    replace (Z.max E f1) with E by lia. rewrite Z.sub_diag.
    change (2 ^ 0) with 1. lia.
  - cbn [shr].
    pose proof (round_after_shift (Z.pos P) k ltac:(lia)) as Hr. cbv zeta in Hr.
    set (mrs := SpecFloat.iter_pos shr_1 k (Build_shr_record (Z.pos P) false false)) in *.
    set (m1 := round_nearest_even (shr_m mrs) (loc_of_shr_record mrs)) in *.
    destruct Hr as ((Hq1 & Hq2) & Hup & Hlo).
    assert (HW : 0 < 2 ^ Z.pos k) by (apply Z.pow_pos_nonneg; lia).
    assert (Hq : Z.pos P / 2 ^ Z.pos k < 2 ^ 53).
    { apply Z.div_lt_upper_bound; [exact HW|].
      rewrite <- Z.pow_add_r by lia.
      eapply Z.lt_le_trans; [exact HPhi|]. apply Z.pow_le_mono_r; lia. }
    assert (Hq0 : 0 <= Z.pos P / 2 ^ Z.pos k) by (apply Z.div_pos; lia).
    replace (Z.max E f1) with f1 by lia.
    replace (E + Z.pos k) with f1 by lia.
    replace (f1 - E) with (Z.pos k) by lia.
    destruct m1 as [|pm|pm] eqn:Hm1; [| |lia].
    + cbn [Zdigits2]. destruct (fexp_ge (0 + f1)) as (_ & _ & Hc).
      destruct (fexp prec emax (0 + f1) - f1) as [|k2|k2] eqn:Hk2; [|lia|];
        cbn [shr shr_m]; exists 0, f1; (split; [reflexivity|lia]).
    + cbn [Zdigits2].
      pose proof (pow2_le_digits pm 53 ltac:(lia) ltac:(lia)) as Hd.
      destruct (fexp_ge (Z.pos (digits2_pos pm) + f1)) as (_ & _ & Hc).
      destruct (fexp prec emax (Z.pos (digits2_pos pm) + f1) - f1)
        as [|k2|k2] eqn:Hk2.
      * cbn [shr shr_m]. exists (Z.pos pm), f1.
        split; [reflexivity|]. replace (f1 - E) with (Z.pos k) by lia. lia.
      * assert (Hd54 : Z.pos (digits2_pos pm) = 54) by lia.
        assert (Hk1 : k2 = 1%positive) by lia. subst k2.
        pose proof (digits2_pos_bounds pm) as [Hlo54 _].
        rewrite Hd54 in Hlo54. change (54 - 1) with 53 in Hlo54.
        assert (Hpm : Z.pos pm = 2 ^ 53) by lia.
        assert (Hpm' : pm = 9007199254740992%positive).
        { apply Pos2Z.inj. rewrite Hpm. reflexivity. }
        subst pm. cbn [shr SpecFloat.iter_pos shr_1 shr_m].
        exists 4503599627370496, (f1 + 1). split; [reflexivity|].
        replace (f1 + 1 - E) with (1 + Z.pos k) by lia.
        rewrite Z.pow_add_r by lia. change (2 ^ 1) with 2.
        change 4503599627370496 with (2 ^ 52).
        change (Z.pos 9007199254740992) with (2 * 2 ^ 52) in Hup, Hlo.
        replace (f1 - E) with (Z.pos k) by lia.
        set (T := 2 ^ 52) in *. assert (0 < T) by reflexivity.
        clearbody T. clear Hpm Hlo54 Hm1 Hq Hq1 Hq2. nia.
      * cbn [shr shr_m]. exists (Z.pos pm), f1.
        split; [reflexivity|]. replace (f1 - E) with (Z.pos k) by lia. lia.
  - cbn [shr shr_m loc_of_shr_record round_nearest_even Zdigits2 shr_record_of_loc].
    fold f1. rewrite Hk. cbn [shr shr_m].
    exists (Z.pos P), E. split; [reflexivity|].
    replace (Z.max E f1) with E by lia. rewrite Z.sub_diag.
    change (2 ^ 0) with 1. lia.
Qed.

Lemma floor_finite_scaled m e S :
  0 <= S -> 0 <= e + S ->
  floor_finite false m e = (Z.pos m * 2 ^ (e + S)) / 2 ^ S.
Proof.
  intros HS HeS. unfold floor_finite.
  destruct (Z.leb_spec 0 e) as [He|He].
  - rewrite Z.pow_add_r, Z.mul_assoc by lia.
    rewrite Z.div_mul; [reflexivity|]. apply Z.pow_nonzero; lia.
  - replace (2 ^ S) with (2 ^ (- e) * 2 ^ (e + S))
      by (rewrite <- Z.pow_add_r by lia; f_equal; lia).
    rewrite Z.div_mul_cancel_r; [reflexivity| |]; apply Z.pow_nonzero; lia.
Qed.

Lemma random_value_finite s m e :
  random_value (S754_finite s m e) ->
  s = false /\ Z.pos m < 2 ^ 53 /\ e <= -53 /\ -1074 <= e.
Proof.
  intros (Hv & Hge & Hlt).
  unfold valid, valid_binary, bounded, canonical_mantissa in Hv.
  apply andb_prop in Hv as [Hc _]. apply Z.eqb_eq in Hc.
  destruct (fexp_ge (Z.pos (digits2_pos m) + e)) as (Hmin & Hd & Hcase).
  rewrite Hc in Hmin, Hd, Hcase.
  pose proof (digits2_pos_bounds m) as [Hlo Hhi].
  assert (Hs : s = false) by (destruct s; [discriminate|reflexivity]).
  subst s. split; [reflexivity|].
  assert (Hm : Z.pos m < 2 ^ 53).
  { eapply Z.lt_le_trans; [exact Hhi|]. apply Z.pow_le_mono_r; lia. }
  split; [exact Hm|]. split; [|exact Hmin].
  unfold ltb, SFltb in Hlt. change (of_Z 1) with (S754_finite false 4503599627370496 (-52)) in Hlt.
  cbn [SFcompare] in Hlt.
  destruct (Z.compare_spec e (-52)) as [He|He|He]; [|lia|discriminate].
  exfalso. rewrite Pos.compare_cont_spec in Hlt. cbn [Pos.switch_Eq] in Hlt.
  destruct (Pos.compare_spec m 4503599627370496) as [?|Hml|?]; try discriminate.
  assert (Hd53 : Z.pos (digits2_pos m) = 53) by (clear - Hcase He; lia).
  rewrite Hd53 in Hlo. change (2 ^ (53 - 1)) with 4503599627370496 in Hlo.
  apply Pos2Z.pos_lt_pos in Hml. clear - Hml Hlo. lia.
Qed.

Lemma digits2_pos_iter_xO k m :
  Z.pos (digits2_pos (Pos.iter xO m k)) = Z.pos (digits2_pos m) + Z.pos k.
Proof.
  induction k as [|k IH] using Pos.peano_ind.
  - cbn [Pos.iter digits2_pos]. lia.
  - rewrite Pos.iter_succ. cbn [digits2_pos]. lia.
Qed.

Lemma Zpos_iter_xO k m : Z.pos (Pos.iter xO m k) = Z.pos m * 2 ^ Z.pos k.
Proof.
  induction k as [|k IH] using Pos.peano_ind.
  - cbn [Pos.iter]. lia.
  - rewrite Pos.iter_succ, (Pos2Z.inj_xO (Pos.iter xO m k)), IH,
      Pos2Z.inj_succ, Z.pow_succ_r by lia.
    lia.
Qed.

Lemma binary_round_aux_canonical s m e :
  fexp prec emax (Z.pos (digits2_pos m) + e) = e ->
  e <= emax - prec ->
  binary_round_aux prec emax s (Z.pos m) e loc_Exact = S754_finite s m e.
Proof.
  intros Hc Hb. unfold binary_round_aux, shr_fexp, Zdigits2.
  rewrite Hc, Z.sub_diag. cbn [shr shr_record_of_loc shr_m loc_of_shr_record
                                round_nearest_even].
  rewrite Hc, Z.sub_diag. cbn [shr shr_record_of_loc shr_m].
  apply Z.leb_le in Hb. rewrite Hb. reflexivity.
Qed.

Lemma pow2_lt_digits (m : positive) (t : Z) :
  0 <= t -> Z.pos m < 2 ^ t -> Z.pos (digits2_pos m) <= t.
Proof.
  intros Ht Hm. pose proof (digits2_pos_bounds m) as [Hlo _].
  destruct (Z.le_gt_cases (Z.pos (digits2_pos m)) t) as [H|H]; [exact H|].
  exfalso.
  assert (2 ^ t <= 2 ^ (Z.pos (digits2_pos m) - 1))
    by (apply Z.pow_le_mono_r; lia).
  lia.
Qed.

Lemma binary_round_exact s m :
  Z.pos m < 2 ^ 53 ->
  exists mz,
    binary_round prec emax s m 0
    = S754_finite s mz (Z.pos (digits2_pos m) - 53)
    /\ Z.pos mz = Z.pos m * 2 ^ (53 - Z.pos (digits2_pos m)).
Proof.
  intros Hm.
  pose proof (pow2_lt_digits m 53 ltac:(lia) Hm) as Hd.
  unfold binary_round, shl_align.
  assert (Hf : fexp prec emax (Z.pos (digits2_pos m) + 0)
               = Z.pos (digits2_pos m) - 53).
  { unfold fexp, emin, prec, emax. lia. }
  rewrite Hf.
  destruct (Z.pos (digits2_pos m) - 53 - 0) as [|k|k] eqn:Hk; [|lia|].
  - exists m. split.
    + replace (Z.pos (digits2_pos m) - 53) with 0 by lia.
      apply binary_round_aux_canonical; [|unfold emax, prec; lia].
      unfold fexp, emin, prec, emax. lia.
    + replace (53 - Z.pos (digits2_pos m)) with 0 by lia. lia.
  - exists (Pos.iter xO m k). split.
    + apply binary_round_aux_canonical; [|unfold emax, prec; lia].
      rewrite digits2_pos_iter_xO. unfold fexp, emin, prec, emax. lia.
    + rewrite Zpos_iter_xO. f_equal. f_equal. lia.
Qed.

(** The mantissa of the binary64 value of a positive integer. *)
Lemma of_Z_pos n :
  Z.pos n < 2 ^ 53 ->
  exists mz,
    of_Z (Z.pos n) = S754_finite false mz (Z.pos (digits2_pos n) - 53)
    /\ Z.pos mz = Z.pos n * 2 ^ (53 - Z.pos (digits2_pos n))
    /\ 2 ^ 52 <= Z.pos mz < 2 ^ 53
    /\ 1 <= Z.pos (digits2_pos n) <= 53.
Proof.
  intros Hn. destruct (binary_round_exact false n Hn) as (mz & Hof & Hmz).
  pose proof (pow2_lt_digits n 53 ltac:(lia) Hn) as Hd.
  pose proof (digits2_pos_bounds n) as [Hlo Hhi].
  exists mz. split; [exact Hof|]. split; [exact Hmz|]. split; [|lia].
  set (d := Z.pos (digits2_pos n)) in *.
  assert (Hs : 0 < 2 ^ (53 - d)) by (apply Z.pow_pos_nonneg; lia).
  assert (H52 : 2 ^ 52 = 2 ^ (d - 1) * 2 ^ (53 - d)).
  { rewrite <- Z.pow_add_r by lia. f_equal. lia. }
  assert (H53 : 2 ^ 53 = 2 ^ d * 2 ^ (53 - d)).
  { rewrite <- Z.pow_add_r by lia. f_equal. lia. }
  rewrite Hmz, H52, H53. clear - Hlo Hhi Hs. nia.
Qed.

(** The floor of the binary64 product of a number below 1 and a positive
    integer, with the rounding of the product bounded by half a unit in
    the last place.  All quantities are counted in units of
    [2 ^ (ex + digits n - 53)], the exponent of the exact product. *)
Lemma floor_mul_bounds (mx : positive) (ex : Z) (n : positive) :
  Z.pos mx < 2 ^ 53 -> ex <= -53 -> Z.pos n < 2 ^ 53 ->
  let A := 2 ^ (- ex - 53) in
  let G := 2 ^ (53 - Z.pos (digits2_pos n)) in
  let P := Z.pos mx * (Z.pos n * G) in
  exists V U,
    Math_floor (mul (S754_finite false mx ex) (of_Z (Z.pos n)))
    = Int (V / (A * 2 ^ 53 * G))
    /\ 0 <= V /\ 0 < U
    /\ 2 * V <= 2 * P + U
    /\ P < V + U
    /\ (U * 2 ^ 52 <= P \/ U <= A).
Proof.
  intros Hmx Hex Hn A G P.
  destruct (of_Z_pos n Hn) as (mz & Hof & Hmz & Hmzr & Hdn).
  rewrite Hof. cbn [mul SFmul xorb].
  set (dn := Z.pos (digits2_pos n)) in *.
  set (E := ex + (dn - 53)).
  destruct (binary_round_aux_bounds false (mx * mz) E)
    as (m2 & e2 & Hres & Hm2 & He2 & Hup & Hlo).
  rewrite Hres. clear Hres.
  set (dP := Z.pos (digits2_pos (mx * mz))) in *.
  set (f1 := fexp prec emax (dP + E)) in *.
  pose proof (digits2_pos_bounds (mx * mz)) as [HdPlo HdPhi]. fold dP in HdPlo, HdPhi.
  rewrite Pos2Z.inj_mul in Hup, Hlo, HdPlo, HdPhi.
  assert (HP : Z.pos mx * Z.pos mz = P) by (subst P G; rewrite Hmz; reflexivity).
  rewrite HP in Hup, Hlo, HdPlo, HdPhi.
  assert (HdP : dP <= 106).
  { apply pow2_lt_digits; [lia|]. rewrite Pos2Z.inj_mul.
    change (2 ^ 106) with (2 ^ 53 * 2 ^ 53).
    apply Z.mul_lt_mono_nonneg; lia. }
  destruct (fexp_ge (dP + E)) as (Hf1min & Hf1d & Hf1c). fold f1 in Hf1min, Hf1d, Hf1c.
  assert (HA : 0 < A) by (apply Z.pow_pos_nonneg; lia).
  assert (HG : 0 < G) by (apply Z.pow_pos_nonneg; lia).
  assert (Hunit : 2 ^ (- E) = A * 2 ^ 53 * G).
  { subst A G E. rewrite <- !Z.pow_add_r by lia. f_equal. lia. }
  set (U := 2 ^ (Z.max E f1 - E)) in *.
  assert (HU : 0 < U) by (apply Z.pow_pos_nonneg; lia).
  assert (HUb : U * 2 ^ 52 <= P \/ U <= A).
  { destruct (Z.le_gt_cases f1 E) as [Hle|Hgt].
    - right. subst U. replace (Z.max E f1 - E) with 0 by lia.
      change (2 ^ 0) with 1. lia.
    - destruct Hf1c as [Hc|Hc].
      + left. subst U. replace (Z.max E f1 - E) with (dP - 53) by lia.
        rewrite <- Z.pow_add_r by lia.
        replace (dP - 53 + 52) with (dP - 1) by lia. exact HdPlo.
      + right. subst U A. apply Z.pow_le_mono_r; [lia|].
        subst E. lia. }
  exists (m2 * 2 ^ (e2 - E)), U.
  assert (HV : 0 <= m2 * 2 ^ (e2 - E)).
  { apply Z.mul_nonneg_nonneg; [exact Hm2|]. apply Z.pow_nonneg; lia. }
  split; [|repeat split; assumption].
  destruct m2 as [|m|m]; [| |lia].
  - rewrite Z.mul_0_l, Z.div_0_l; [reflexivity|].
    clear - HA HG. assert (0 < 2 ^ 53) by reflexivity. nia.
  - assert (He971 : e2 <= emax - prec).
    { unfold emax, prec. subst E. clear - He2 Hf1c HdP Hex Hdn. lia. }
    apply Z.leb_le in He971. rewrite He971. cbn [Math_floor]. f_equal.
    rewrite (floor_finite_scaled m e2 (- E)) by lia.
    rewrite Hunit. reflexivity.
Qed.

Lemma floor_mul_random_range (r : number) (n : Z) :
  random_value r -> 0 < n < 2 ^ 53 ->
  exists k, Math_floor (mul r (of_Z n)) = Int k /\ 0 <= k < n.
Proof.
  intros Hr Hn. destruct n as [|n|n]; [lia| |lia].
  destruct r as [s|s| |s mx ex].
  - destruct (of_Z_pos n ltac:(lia)) as (mz & -> & _).
    exists 0. split; [reflexivity|lia].
  - destruct Hr as (_ & Hge & Hlt). destruct s; discriminate.
  - destruct Hr as (_ & Hge & _). discriminate.
  - destruct (random_value_finite s mx ex Hr) as (-> & Hmx & Hex & _).
    destruct (floor_mul_bounds mx ex n Hmx Hex ltac:(lia))
      as (V & U & Hfl & HV & HU & Hup & _ & HUb).
    rewrite Hfl. eexists. split; [reflexivity|].
    set (A := 2 ^ (- ex - 53)) in *.
    set (G := 2 ^ (53 - Z.pos (digits2_pos n))) in *.
    pose proof (pow2_lt_digits n 53 ltac:(lia) ltac:(lia)) as Hdn.
    assert (HA : 0 < A) by (apply Z.pow_pos_nonneg; lia).
    assert (HG : 0 < G) by (apply Z.pow_pos_nonneg; lia).
    clear Hdn. change (2 ^ 53) with (2 * 2 ^ 52) in *.
    set (H := 2 ^ 52) in *. assert (HH : 0 < H) by reflexivity.
    clearbody H A G.
    assert (HQ : 0 < Z.pos n * G) by lia.
    set (Q := Z.pos n * G) in *.
    assert (Hunit : 0 < A * (2 * H) * G) by nia.
    split; [apply Z.div_pos; lia|].
    apply Z.div_lt_upper_bound; [exact Hunit|].
    replace (A * (2 * H) * G * Z.pos n) with (A * (2 * H) * Q) by (subst Q; ring).
    clearbody Q. clear Hfl Hn Hex Hr Hunit.
    assert (HP : Z.pos mx * Q <= (2 * H - 1) * Q) by nia.
    set (P := Z.pos mx * Q) in *. clearbody P. clear Hmx.
    destruct HUb as [HUb|HUb].
    + assert (H * (2 * P + U) < H * (2 * (2 * H) * Q)) by nia.
      assert (2 * P + U < 2 * (2 * H) * Q) by nia.
      nia.
    + nia.
Qed.

Lemma digits2_pos_53 (m : positive) :
  2 ^ 52 <= Z.pos m < 2 ^ 53 -> Z.pos (digits2_pos m) = 53.
Proof.
  intros [Hlo Hhi].
  pose proof (pow2_lt_digits m 53 ltac:(lia) Hhi) as Hd.
  pose proof (digits2_pos_bounds m) as [_ Hm].
  destruct (Z.le_gt_cases 53 (Z.pos (digits2_pos m))) as [H|H]; [lia|].
  exfalso.
  assert (2 ^ Z.pos (digits2_pos m) <= 2 ^ 52) by (apply Z.pow_le_mono_r; lia).
  lia.
Qed.

Lemma draw_for_index (j n : Z) :
  0 <= j < n -> n <= 2 ^ 32 ->
  random_value (draw_for j n)
  /\ Math_floor (mul (draw_for j n) (of_Z n)) = Int j.
Proof.
  intros Hj Hn. unfold draw_for.
  set (k := ((2 * j + 1) * 2 ^ 52 + n - 1) / n).
  assert (Hk1 : (2 * j + 1) * 2 ^ 52 <= k * n).
  { subst k.
    pose proof (Z.div_mod ((2 * j + 1) * 2 ^ 52 + n - 1) n ltac:(lia)) as Hdm.
    pose proof (Z.mod_pos_bound ((2 * j + 1) * 2 ^ 52 + n - 1) n ltac:(lia)) as Hb.
    set (q := ((2 * j + 1) * 2 ^ 52 + n - 1) / n) in *.
    set (t := ((2 * j + 1) * 2 ^ 52 + n - 1) mod n) in *.
    set (H := 2 ^ 52) in *. clearbody H q t. nia. }
  assert (Hk2 : k * n < (2 * j + 1) * 2 ^ 52 + n).
  { subst k.
    pose proof (Z.div_mod ((2 * j + 1) * 2 ^ 52 + n - 1) n ltac:(lia)) as Hdm.
    pose proof (Z.mod_pos_bound ((2 * j + 1) * 2 ^ 52 + n - 1) n ltac:(lia)) as Hb.
    set (q := ((2 * j + 1) * 2 ^ 52 + n - 1) / n) in *.
    set (t := ((2 * j + 1) * 2 ^ 52 + n - 1) mod n) in *.
    set (H := 2 ^ 52) in *. clearbody H q t. nia. }
  assert (HH : 0 < 2 ^ 52) by reflexivity.
  assert (H32 : 2 ^ 32 * 2 ^ 4 <= 2 ^ 52) by (vm_compute; discriminate).
  assert (Hkpos : 0 < k).
  { clearbody k. set (H := 2 ^ 52) in *. clearbody H. clear H32 Hn. nia. }
  assert (Hk53 : k < 2 ^ 53).
  { change (2 ^ 53) with (2 * 2 ^ 52). clearbody k.
    set (H := 2 ^ 52) in *. set (N := 2 ^ 32) in *.
    assert (0 < N) by reflexivity. clearbody H N. nia. }
  clearbody k. destruct k as [|k|k]; [lia| |lia].
  destruct n as [|n|n]; [lia| |lia].
  destruct (of_Z_pos k Hk53) as (mk & -> & Hmk & Hmkr & Hdk).
  set (dk := Z.pos (digits2_pos k)) in *.
  split.
  - split; [|split].
    + unfold valid, valid_binary, bounded, canonical_mantissa.
      rewrite (digits2_pos_53 mk Hmkr).
      apply andb_true_intro. split.
      * apply Z.eqb_eq. unfold fexp, emin, prec, emax. clear - Hdk. lia.
      * apply Z.leb_le. unfold prec, emax. clear - Hdk. lia.
    + reflexivity.
    + unfold ltb, SFltb.
      change (of_Z 1) with (S754_finite false 4503599627370496 (-52)).
      cbn [SFcompare].
      assert (Hc : (dk - 53 - 53 ?= -52) = Lt) by (apply Z.compare_lt_iff; clear - Hdk; lia).
      rewrite Hc. reflexivity.
  - destruct (floor_mul_bounds mk (dk - 53 - 53) n ltac:(lia) ltac:(clear - Hdk; lia)
                ltac:(clear - Hn; assert (2 ^ 32 < 2 ^ 53) by reflexivity; lia))
      as (V & U & Hfl & HV & HU & Hup & Hlo & HUb).
    rewrite Hfl. f_equal. clear Hfl.
    replace (- (dk - 53 - 53) - 53) with (53 - dk) in * by (clear; lia).
    pose proof (pow2_lt_digits n 53 ltac:(lia)
                  ltac:(clear - Hn; assert (2 ^ 32 < 2 ^ 53) by reflexivity; lia))
      as Hdn.
    set (Gk := 2 ^ (53 - dk)) in *.
    set (G := 2 ^ (53 - Z.pos (digits2_pos n))) in *.
    assert (HGk : 0 < Gk) by (apply Z.pow_pos_nonneg; clear - Hdk; lia).
    assert (HG : 0 < G) by (apply Z.pow_pos_nonneg; clear - Hdn; lia).
    rewrite Hmk in Hup, Hlo, HUb. clear Hmk Hmkr Hdk Hdn.
    change (2 ^ 53) with (2 * 2 ^ 52) in *.
    set (H := 2 ^ 52) in *. set (N := 2 ^ 32) in *.
    assert (HN : 0 < N) by reflexivity.
    clearbody H N Gk G. clear dk.
    set (W := Gk * G) in *. assert (HW : 0 < W) by (subst W; nia).
    assert (HP : Z.pos k * Gk * (Z.pos n * G) = Z.pos k * Z.pos n * W)
      by (subst W; ring).
    rewrite HP in *. clear HP.
    assert (Hunit : Gk * (2 * H) * G = 2 * H * W) by (subst W; ring).
    rewrite Hunit. clear Hunit.
    assert (HGkW : Gk <= W) by (subst W; nia).
    clearbody W.
    set (kn := Z.pos k * Z.pos n) in *. clearbody kn.
    assert (HUW : U <= H * W - 2 * N * W).
    { destruct HUb as [HUb|HUb]; [|nia].
      assert (HknN : kn < 2 * H * N) by nia.
      assert (U * H < 2 * N * W * H) by nia.
      assert (U < 2 * N * W) by nia.
      nia. }
    symmetry. apply (Z.div_unique_pos V (2 * H * W) j (V - 2 * H * W * j)); [|ring].
    split; nia.
Qed.

End Binary64.

(** ** calculatePRI *)








(** C5: for every score, mistakes and mode the scoring function returns an
    integer of [40, 160] whenever elapsedSeconds >= 10 (score = 0 and
    mistakes = 0 included), and exactly the sentinel 0 whenever
    elapsedSeconds < 10, whatever score and mistakes are. *)
Theorem calculatePRI_range
    (score mistakes elapsedSeconds : number) (gameType : GameType) :
  (geb elapsedSeconds (of_Z 10) = true ->
     is_finite score = true -> is_finite mistakes = true ->
     is_finite elapsedSeconds = true ->
     exists z, calculatePRI score mistakes elapsedSeconds gameType = Int z
               /\ 40 <= z <= 160)
  /\ (ltb elapsedSeconds (of_Z 10) = true ->
      calculatePRI score mistakes elapsedSeconds gameType = Int 0).
Proof.
  split.
  - intros He Hs Hm Hf. unfold calculatePRI.
    rewrite (geb_true_ltb_false _ _ He).
    apply clamp_range, Math_round_not_nan.
    apply pri_not_nan; try assumption.
    + apply geb_10_nonzero_finite; assumption.
    + destruct gameType; exact I.
    + destruct gameType; exact I.
  - intros Hlt. unfold calculatePRI. rewrite Hlt. reflexivity.
Qed.

Lemma calculatePRI_range_witness :
  (exists z, calculatePRI (of_Z 0) (of_Z 0) (of_Z 10) coding = Int z
             /\ 40 <= z <= 160)
  /\ calculatePRI (of_Z 12) (of_Z 3) (of_Z 9) symbol_match = Int 0.
Proof.
  split.
  - apply (proj1 (calculatePRI_range (of_Z 0) (of_Z 0) (of_Z 10) coding));
      reflexivity.
  - apply (proj2 (calculatePRI_range (of_Z 12) (of_Z 3) (of_Z 9) symbol_match));
      reflexivity.
Defined.

(** The finiteness of the inputs matters: a score that is NaN, which no
    session produces, comes out as NaN. *)
Example calculatePRI_of_nan :
  calculatePRI S754_nan (of_Z 0) (of_Z 60) coding = NaN.
Proof. reflexivity. Qed.

(** ** The random oracle and shuffleArray *)

Lemma bind_Ok {A B} (c : Rand A) (k : A -> Rand B) p a p' :
  c p = Ok a p' -> bind c k p = k a p'.
Proof. unfold bind; intros ->; reflexivity. Qed.

Lemma bind_Ok_inv {A B} (c : Rand A) (k : A -> Rand B) p b q :
  bind c k p = Ok b q -> exists a p', c p = Ok a p' /\ k a p' = Ok b q.
Proof.
  unfold bind; destruct (c p) as [a p'| |]; intros H; try discriminate.
  exists a, p'; split; [reflexivity|exact H].
Qed.

Lemma read_Some {T} (arr : list T) i x p :
  0 <= i -> arr !! Z.to_nat i = Some x -> read arr i p = Ok x p.
Proof.
  unfold read; intros Hi ->.
  destruct (Z.ltb_spec i 0); [lia|reflexivity].
Qed.

Section RandomProps.

Variable rng : nat -> number.

Lemma random_floor_Ok n p j :
  Math_floor (mul (rng p) (of_Z n)) = Int j ->
  random_floor rng n p = Ok j (S p).
Proof.
  intros H. unfold random_floor, bind, Math_random. rewrite H. reflexivity.
Qed.

Lemma random_floor_inv n p j p' :
  random_floor rng n p = Ok j p' ->
  p' = S p /\ Math_floor (mul (rng p) (of_Z n)) = Int j.
Proof.
  unfold random_floor, bind, Math_random, ret.
  destruct (Math_floor (mul (rng p) (of_Z n))) as [| |z]; try discriminate.
  intros [= -> <-]. split; reflexivity.
Qed.

Hypothesis rng_range : forall n, random_value (rng n).

(** [Math.floor(Math.random() * n)] is one of [0 .. n-1]. *)
Lemma random_floor_range n p :
  0 < n <= max_array_length ->
  exists k, random_floor rng n p = Ok k (S p) /\ 0 <= k < n.
Proof.
  intros Hn.
  assert (Hn53 : 0 < n < 2 ^ 53).
  { assert (max_array_length < 2 ^ 53) by reflexivity. lia. }
  destruct (floor_mul_random_range (rng p) n (rng_range p) Hn53)
    as (k & Hk & Hkr).
  exists k. split; [exact (random_floor_Ok n p k Hk)|exact Hkr].
Qed.

Lemma swap_ok {T} (l : list T) (i : nat) (j : Z) p :
  (i < length l)%nat -> 0 <= j < Z.of_nat (length l) ->
  exists l', swap l i j p = Ok l' p /\ l' ≡ₚ l.
Proof.
  intros Hi Hj.
  destruct (lookup_lt_is_Some_2 l i Hi) as [y Hy].
  destruct (lookup_lt_is_Some_2 l (Z.to_nat j) ltac:(lia)) as [x Hx].
  exists (<[Z.to_nat j := y]> (<[i := x]> l)). split.
  - unfold swap.
    rewrite (bind_Ok _ _ _ _ _ (read_Some l j x p ltac:(lia) Hx)).
    rewrite (bind_Ok _ _ _ _ _ (read_Some l (Z.of_nat i) y p ltac:(lia)
                                  ltac:(rewrite Nat2Z.id; exact Hy))).
    reflexivity.
  - apply Permutation_insert_swap; assumption.
Qed.

Lemma shuffle_loop_ok {T} (i : nat) (l : list T) p :
  Z.of_nat (length l) <= max_array_length ->
  (i < length l)%nat \/ i = 0%nat ->
  exists l', shuffle_loop rng i l p = Ok l' (p + i)%nat /\ l' ≡ₚ l.
Proof.
  revert l p; induction i as [|i IH]; intros l p Hlen Hi.
  - exists l. simpl. unfold ret. rewrite Nat.add_0_r. split; reflexivity.
  - destruct Hi as [Hi|Hi]; [|discriminate].
    cbn [shuffle_loop].
    destruct (random_floor_range (Z.of_nat (S i) + 1) p ltac:(lia))
      as (j & Hj & Hjr).
    rewrite (bind_Ok _ _ _ _ _ Hj).
    destruct (swap_ok l (S i) j (S p) Hi ltac:(lia))
      as (l1 & Hs & Hp1).
    rewrite (bind_Ok _ _ _ _ _ Hs).
    destruct (IH l1 (S p)) as (l2 & Hl2 & Hp2).
    { rewrite (Permutation_length Hp1). exact Hlen. }
    { left. rewrite (Permutation_length Hp1). lia. }
    exists l2. split.
    + rewrite Hl2. f_equal. lia.
    + rewrite Hp2. exact Hp1.
Qed.

(** [shuffleArray] returns a permutation of its argument and makes
    [length - 1] draws. *)
Lemma shuffleArray_ok {T} (l : list T) p :
  Z.of_nat (length l) <= max_array_length ->
  exists l', shuffleArray rng l p = Ok l' (p + (length l - 1))%nat /\ l' ≡ₚ l.
Proof.
  intros Hlen. unfold shuffleArray. apply shuffle_loop_ok; [exact Hlen|].
  destruct l; simpl; [right; reflexivity|left; lia].
Qed.

End RandomProps.

(** ** Slices of a list without duplicates *)

Lemma slice_NoDup {T} (a b : nat) (l : list T) : NoDup l -> NoDup (slice a b l).
Proof.
  intros H. unfold slice.
  eapply sublist_NoDup; [|apply sublist_take].
  eapply sublist_NoDup; [exact H|apply sublist_drop].
Qed.

Lemma slice_disjoint {T} (a b : nat) (l : list T) x :
  NoDup l -> x ∈ take a l -> x ∉ slice a b l.
Proof.
  intros H Hx Hin. rewrite <- (take_drop a l) in H.
  apply NoDup_app in H as (_ & Hd & _).
  apply (Hd x Hx). unfold slice in Hin.
  eapply subseteq_take, Hin.
Qed.

Lemma ALL_SYMBOLS_NoDup : NoDup ALL_SYMBOLS.
Proof. apply (bool_decide_unpack _). vm_compute. reflexivity. Qed.

(** ** SymbolMatchGame.generateRound *)

(** The arrays that the games shuffle are far below the largest array. *)
Lemma short_array {T} (l : list T) :
  (length l <= 15)%nat -> Z.of_nat (length l) <= max_array_length.
Proof. unfold max_array_length. lia. Qed.

Section MatchProps.

Import SymbolMatchGame.

Variable rng : nat -> number.
Hypothesis rng_range : forall n, random_value (rng n).

(** What [generateRound] returns, by branch. *)
Lemma match_generateRound_shape st p :
  exists st' p' shuffled,
    generateRound rng st p = Ok st' p'
    /\ shuffled ≡ₚ ALL_SYMBOLS
    /\ targets st' = take 2 shuffled
    /\ ((isMatch st' = true
         /\ exists t, t ∈ take 2 shuffled
                      /\ searchGroup st' ≡ₚ t :: slice 2 6 shuffled)
        \/ (isMatch st' = false /\ searchGroup st' = slice 2 7 shuffled)).
Proof.
  unfold generateRound.
  destruct (shuffleArray_ok rng rng_range ALL_SYMBOLS p
              (short_array ALL_SYMBOLS ltac:(simpl; lia))) as (shuffled & Hs & Hp).
  rewrite (bind_Ok _ _ _ _ _ Hs).
  set (p1 := (p + (length ALL_SYMBOLS - 1))%nat).
  unfold bind at 1, Math_random at 1.
  assert (Hlen : length shuffled = 15%nat) by (rewrite (Permutation_length Hp); reflexivity).
  destruct (gtb (rng p1) one_half) eqn:Hm.
  - destruct (random_floor_range rng rng_range 2 (S p1)
                ltac:(unfold max_array_length; lia))
      as (k & Hk & Hkr).
    rewrite (bind_Ok _ _ _ _ _ Hk).
    destruct (lookup_lt_is_Some_2 (slice 0 2 shuffled) (Z.to_nat k))
      as [t Ht].
    { unfold slice. rewrite length_take, length_drop. lia. }
    rewrite (bind_Ok _ _ _ _ _
               (read_Some (slice 0 2 shuffled) k t (S (S p1)) ltac:(lia) Ht)).
    destruct (shuffleArray_ok rng rng_range (t :: slice 2 6 shuffled) (S (S p1))
                (short_array (t :: slice 2 6 shuffled)
                   ltac:(cbn [length]; unfold slice;
                                     rewrite length_take; lia)))
      as (group & Hg & Hpg).
    rewrite (bind_Ok _ _ _ _ _ Hg).
    eexists _, _, shuffled. split; [reflexivity|]. split; [exact Hp|].
    split; [reflexivity|]. left. split; [reflexivity|].
    exists t. split; [|exact Hpg].
    eapply list_elem_of_lookup_2, Ht.
  - eexists _, _, shuffled. split; [reflexivity|]. split; [exact Hp|].
    split; [reflexivity|]. right. split; reflexivity.
Qed.

End MatchProps.

(** C2: for every generated match trial, under either generation branch,
    isMatch is true if and only if at least one of the two target symbols
    is an element of searchSet. *)
Theorem isMatch_iff_target_in_searchGroup
    (rng : nat -> number) (st : SymbolMatchGame.State) (p : nat) :
  (forall n, random_value (rng n)) ->
  exists st' p',
    SymbolMatchGame.generateRound rng st p = Ok st' p'
    /\ (SymbolMatchGame.isMatch st' = true
        <-> exists t, t ∈ SymbolMatchGame.targets st'
                      /\ t ∈ SymbolMatchGame.searchGroup st').
Proof.
  intros Hr.
  destruct (match_generateRound_shape rng Hr st p)
    as (st' & p' & shuffled & Hg & Hp & Ht & Hb).
  exists st', p'. split; [exact Hg|].
  assert (Hnd : NoDup shuffled) by (rewrite Hp; apply ALL_SYMBOLS_NoDup).
  rewrite Ht.
  destruct Hb as [(Hm & t & Htt & Hsg)|(Hm & Hsg)]; rewrite Hm.
  - split; [intros _|reflexivity].
    exists t. split; [exact Htt|]. rewrite Hsg. left.
  - rewrite Hsg. split; [discriminate|]. intros (t & Htt & Hin).
    exfalso. exact (slice_disjoint 2 7 shuffled t Hnd Htt Hin).
Qed.

Lemma isMatch_iff_target_in_searchGroup_witness :
  exists st' p',
    SymbolMatchGame.generateRound (rng_const three_quarters) SymbolMatchGame.initial 0%nat
    = Ok st' p'
    /\ (SymbolMatchGame.isMatch st' = true
        <-> exists t, t ∈ SymbolMatchGame.targets st'
                      /\ t ∈ SymbolMatchGame.searchGroup st').
Proof.
  apply (isMatch_iff_target_in_searchGroup (rng_const three_quarters)).
  intros n; split; [|split]; reflexivity.
Defined.

(** Both branches of [generateRound] are taken: the coin is the draw
    after the 14 draws of the shuffle. *)
Lemma match_branches_reachable :
  (exists st' p',
      SymbolMatchGame.generateRound (rng_const three_quarters) SymbolMatchGame.initial 0%nat
      = Ok st' p'
      /\ SymbolMatchGame.isMatch st' = true)
  /\ (exists st' p',
        SymbolMatchGame.generateRound (rng_const one_quarter) SymbolMatchGame.initial 0%nat
        = Ok st' p'
        /\ SymbolMatchGame.isMatch st' = false).
Proof.
  split; eexists _, _; split; vm_compute; reflexivity.
Qed.

(** C10: every generated match trial has two distinct target symbols, a
    searchSet without duplicates, and, when isMatch is false, no target
    symbol in searchSet. *)
Theorem match_trial_invariant
    (rng : nat -> number) (st : SymbolMatchGame.State) (p : nat) :
  (forall n, random_value (rng n)) ->
  exists st' p',
    SymbolMatchGame.generateRound rng st p = Ok st' p'
    /\ length (SymbolMatchGame.targets st') = 2%nat
    /\ NoDup (SymbolMatchGame.targets st')
    /\ NoDup (SymbolMatchGame.searchGroup st')
    /\ (SymbolMatchGame.isMatch st' = false ->
        forall t, t ∈ SymbolMatchGame.targets st' ->
                  t ∉ SymbolMatchGame.searchGroup st').
Proof.
  intros Hr.
  destruct (match_generateRound_shape rng Hr st p)
    as (st' & p' & shuffled & Hg & Hp & Ht & Hb).
  exists st', p'. split; [exact Hg|].
  assert (Hnd : NoDup shuffled) by (rewrite Hp; apply ALL_SYMBOLS_NoDup).
  assert (Hlen : length shuffled = 15%nat)
    by (rewrite (Permutation_length Hp); reflexivity).
  rewrite Ht. split; [rewrite length_take; lia|].
  split; [eapply sublist_NoDup; [exact Hnd|apply sublist_take]|].
  destruct Hb as [(Hm & t & Htt & Hsg)|(Hm & Hsg)]; rewrite Hm, Hsg.
  - split; [|discriminate].
    apply NoDup_cons. split.
    + apply slice_disjoint; assumption.
    + apply slice_NoDup, Hnd.
  - split; [apply slice_NoDup, Hnd|].
    intros _ t Htt. apply slice_disjoint; assumption.
Qed.

Lemma match_trial_invariant_witness :
  exists st' p',
    SymbolMatchGame.generateRound (rng_const one_quarter) SymbolMatchGame.initial 0%nat
    = Ok st' p'
    /\ length (SymbolMatchGame.targets st') = 2%nat
    /\ NoDup (SymbolMatchGame.targets st')
    /\ NoDup (SymbolMatchGame.searchGroup st')
    /\ (SymbolMatchGame.isMatch st' = false ->
        forall t, t ∈ SymbolMatchGame.targets st' ->
                  t ∉ SymbolMatchGame.searchGroup st').
Proof.
  apply (match_trial_invariant (rng_const one_quarter)).
  intros n; split; [|split]; reflexivity.
Defined.

(** ** CodingGame.generateRound *)

Section CodingProps.

Import CodingGame.

Variable rng : nat -> number.

(** The do-while loop only leaves with a number other than
    [currentNumber]. *)
Lemma draw_nextNum_differs fuel c p n p' :
  draw_nextNum rng fuel c p = Ok n p' -> n <> c.
Proof.
  revert p; induction fuel as [|fuel IH]; intros p; [discriminate|].
  cbn [draw_nextNum]. intros H.
  apply bind_Ok_inv in H as (k & p1 & _ & H).
  destruct (Z.eqb_spec (k + 1) c) as [_|Hne].
  - exact (IH _ H).
  - unfold ret in H. injection H as <- _. exact Hne.
Qed.

Lemma handleAnswer_currentNumber num score mistakes st :
  currentNumber (handleAnswer num score mistakes st).2 = currentNumber st.
Proof. unfold handleAnswer. destruct (num =? currentNumber st); reflexivity. Qed.

Lemma generateRound_differs fuel st p st' p' :
  generateRound rng fuel st p = Ok st' p' ->
  currentNumber st' <> currentNumber st.
Proof.
  unfold generateRound. intros H.
  apply bind_Ok_inv in H as (shuffled & p1 & _ & H).
  apply bind_Ok_inv in H as (newMap & p2 & _ & H).
  apply bind_Ok_inv in H as (order & p3 & _ & H).
  apply bind_Ok_inv in H as (nextNum & p4 & Hd & H).
  unfold ret in H. injection H as <- _. cbn [currentNumber].
  exact (draw_nextNum_differs _ _ _ _ _ Hd).
Qed.

(** Adjacent trials of a run of answers, the trial before the first
    answer included. *)
Lemma trials_adjacent fuel answers score mistakes st p l p' :
  trials rng fuel answers score mistakes st p = Ok l p' ->
  forall k a b,
    (st :: l) !! k = Some a -> (st :: l) !! S k = Some b ->
    currentNumber b <> currentNumber a.
Proof.
  revert score mistakes st p l p'.
  induction answers as [|num rest IH]; intros score mistakes st p l p' H k a b.
  - cbn in H. unfold ret in H. injection H as <- _.
    destruct k; discriminate.
  - cbn [trials] in H.
    pose proof (handleAnswer_currentNumber num score mistakes st) as Hc.
    destruct (handleAnswer num score mistakes st) as [[score' mistakes'] st1].
    cbn [snd] in Hc.
    apply bind_Ok_inv in H as (st2 & p1 & Hg & H).
    apply bind_Ok_inv in H as (more & p2 & Hm & H).
    unfold ret in H. injection H as <- _.
    apply generateRound_differs in Hg. cbn [nextRound currentNumber] in Hg.
    destruct k as [|k]; cbn [lookup list_lookup].
    + intros [= <-] [= <-]. congruence.
    + exact (IH _ _ _ _ _ _ Hm k a b).
Qed.

Hypothesis rng_range : forall n, random_value (rng n).

(** The loop returns as soon as a draw gives another number, if the
    step bound reaches that draw. *)
Lemma draw_nextNum_returns fuel c p k :
  (k < fuel)%nat ->
  Math_floor (mul (rng (p + k)) (of_Z 5)) <> Int (c - 1) ->
  exists n p', draw_nextNum rng fuel c p = Ok n p'.
Proof.
  revert p k; induction fuel as [|fuel IH]; intros p k Hk Hne; [lia|].
  cbn [draw_nextNum].
  destruct (random_floor_range rng rng_range 5 p
              ltac:(unfold max_array_length; lia)) as (j & Hj & Hjr).
  rewrite (bind_Ok _ _ _ _ _ Hj).
  destruct (Z.eqb_spec (j + 1) c) as [He|_].
  - destruct k as [|k].
    + exfalso. apply Hne. rewrite Nat.add_0_r.
      destruct (random_floor_inv rng 5 p j _ Hj) as [_ ->]. f_equal. lia.
    + apply (IH (S p) k); [lia|].
      replace (S p + k)%nat with (p + S k)%nat by lia. exact Hne.
  - eexists _, _. reflexivity.
Qed.

Lemma draw_nextNum_range fuel c p n p' :
  draw_nextNum rng fuel c p = Ok n p' -> 1 <= n <= 5.
Proof.
  revert p; induction fuel as [|fuel IH]; intros p; [discriminate|].
  cbn [draw_nextNum]. intros H.
  destruct (random_floor_range rng rng_range 5 p
              ltac:(unfold max_array_length; lia)) as (k & Hk & Hkr).
  rewrite (bind_Ok _ _ _ _ _ Hk) in H.
  destruct (k + 1 =? c).
  - exact (IH _ H).
  - unfold ret in H. injection H as <- _. lia.
Qed.

(** The loop that fills the mapping reads the first five symbols. *)
Lemma set_loop_five (shuffled : list Symbol) p :
  length shuffled = 15%nat ->
  exists s1 s2 s3 s4 s5 rest,
    shuffled = s1 :: s2 :: s3 :: s4 :: s5 :: rest
    /\ set_loop shuffled [1; 2; 3; 4; 5] ∅ p
       = Ok (<[5 := s5]> (<[4 := s4]> (<[3 := s3]> (<[2 := s2]>
               (<[1 := s1]> ∅))))) p.
Proof.
  destruct shuffled as [|s1 [|s2 [|s3 [|s4 [|s5 rest]]]]];
    intros Hlen; try discriminate.
  exists s1, s2, s3, s4, s5, rest. split; reflexivity.
Qed.

(** What [generateRound] returns. *)
Lemma coding_generateRound_shape fuel st p st' p' :
  generateRound rng fuel st p = Ok st' p' ->
  exists s1 s2 s3 s4 s5 rest,
    s1 :: s2 :: s3 :: s4 :: s5 :: rest ≡ₚ ALL_SYMBOLS
    /\ map st' = <[5 := s5]> (<[4 := s4]> (<[3 := s3]> (<[2 := s2]>
                   (<[1 := s1]> ∅))))
    /\ buttonOrder st' ≡ₚ [1; 2; 3; 4; 5]
    /\ 1 <= currentNumber st' <= 5.
Proof.
  unfold generateRound. intros H.
  destruct (shuffleArray_ok rng rng_range ALL_SYMBOLS p
              (short_array ALL_SYMBOLS ltac:(simpl; lia))) as (shuffled & Hs & Hp).
  rewrite (bind_Ok _ _ _ _ _ Hs) in H.
  destruct (set_loop_five shuffled (p + (length ALL_SYMBOLS - 1))%nat)
    as (s1 & s2 & s3 & s4 & s5 & rest & -> & Hl).
  { rewrite (Permutation_length Hp); reflexivity. }
  rewrite (bind_Ok _ _ _ _ _ Hl) in H.
  destruct (shuffleArray_ok rng rng_range [1; 2; 3; 4; 5]
              (p + (length ALL_SYMBOLS - 1))%nat
              (short_array [1; 2; 3; 4; 5] ltac:(simpl; lia))) as (order & Ho & Hpo).
  rewrite (bind_Ok _ _ _ _ _ Ho) in H.
  apply bind_Ok_inv in H as (nextNum & p4 & Hd & H).
  unfold ret in H. injection H as <- <-.
  exists s1, s2, s3, s4, s5, rest.
  split; [exact Hp|]. split; [reflexivity|]. split; [exact Hpo|].
  exact (draw_nextNum_range _ _ _ _ _ Hd).
Qed.

(** [generateRound] returns when one of the draws of the do-while loop
    that the step bound reaches gives a number other than
    [currentNumber]; the two shuffles use the 18 draws before. *)
Lemma coding_generateRound_returns fuel st p k :
  (k < fuel)%nat ->
  Math_floor (mul (rng (p + 18 + k)) (of_Z 5)) <> Int (currentNumber st - 1) ->
  exists st' p', generateRound rng fuel st p = Ok st' p'.
Proof.
  intros Hk Hne. unfold generateRound.
  destruct (shuffleArray_ok rng rng_range ALL_SYMBOLS p
              (short_array ALL_SYMBOLS ltac:(simpl; lia))) as (shuffled & Hs & Hp).
  rewrite (bind_Ok _ _ _ _ _ Hs).
  destruct (set_loop_five shuffled (p + (length ALL_SYMBOLS - 1))%nat)
    as (s1 & s2 & s3 & s4 & s5 & rest & -> & Hl).
  { rewrite (Permutation_length Hp); reflexivity. }
  rewrite (bind_Ok _ _ _ _ _ Hl).
  destruct (shuffleArray_ok rng rng_range [1; 2; 3; 4; 5]
              (p + (length ALL_SYMBOLS - 1))%nat
              (short_array [1; 2; 3; 4; 5] ltac:(simpl; lia))) as (order & Ho & Hpo).
  rewrite (bind_Ok _ _ _ _ _ Ho).
  match goal with
  | |- context [bind _ _ ?q] => replace q with (p + 18)%nat by (simpl; lia)
  end.
  destruct (draw_nextNum_returns fuel (currentNumber st) (p + 18) k Hk Hne)
    as (n & p' & Hd).
  rewrite (bind_Ok _ _ _ _ _ Hd). eexists _, _. reflexivity.
Qed.

End CodingProps.

(** C9: every generated coding trial maps exactly the digits 1..5 to five
    pairwise distinct symbols, and its buttonOrder is a permutation of
    1..5. *)
Theorem coding_trial_invariant
    (rng : nat -> number) (fuel : nat) (st st' : CodingGame.State) (p p' : nat) :
  (forall n, random_value (rng n)) ->
  CodingGame.generateRound rng fuel st p = Ok st' p' ->
  dom (CodingGame.map st') = list_to_set [1; 2; 3; 4; 5]
  /\ (forall i j s,
        CodingGame.map st' !! i = Some s -> CodingGame.map st' !! j = Some s ->
        i = j)
  /\ CodingGame.buttonOrder st' ≡ₚ [1; 2; 3; 4; 5].
Proof.
  intros Hr H.
  destruct (coding_generateRound_shape rng Hr fuel st p st' p' H)
    as (s1 & s2 & s3 & s4 & s5 & rest & Hp & Hm & Hb & _).
  split; [|split; [|exact Hb]].
  - rewrite Hm, !dom_insert_L, dom_empty_L. set_solver.
  - assert (Hnd : NoDup (s1 :: s2 :: s3 :: s4 :: s5 :: rest))
      by (rewrite Hp; apply ALL_SYMBOLS_NoDup).
    rewrite !NoDup_cons, !not_elem_of_cons in Hnd.
    intros i j s. rewrite Hm, !lookup_insert_Some, !lookup_empty.
    intros Hi Hj. destruct_and!.
    repeat match goal with
           | H : _ \/ _ |- _ => destruct H
           | H : _ /\ _ |- _ => destruct H
           end; subst; congruence.
Qed.

Lemma rng_cycle_range n : random_value (rng_cycle n).
Proof.
  unfold rng_cycle. pose proof (Nat.mod_upper_bound n 5 ltac:(lia)) as Hn.
  destruct (n mod 5)%nat as [|[|[|[|[|k]]]]]; [..|lia];
    (split; [|split]; reflexivity).
Qed.

Lemma coding_trial_invariant_witness :
  exists st' p',
    CodingGame.generateRound rng_cycle 3%nat CodingGame.initial 0%nat = Ok st' p'
    /\ dom (CodingGame.map st') = list_to_set [1; 2; 3; 4; 5]
    /\ (forall i j s,
          CodingGame.map st' !! i = Some s -> CodingGame.map st' !! j = Some s ->
          i = j)
    /\ CodingGame.buttonOrder st' ≡ₚ [1; 2; 3; 4; 5].
Proof.
  eexists _, _. split; [vm_compute; reflexivity|].
  eapply (coding_trial_invariant rng_cycle 3%nat CodingGame.initial _ 0%nat _
            rng_cycle_range).
  vm_compute; reflexivity.
Defined.

(** ** Coding sessions *)

Section SessionProps.

Import CodingGame.

Variable rng : nat -> number.
Variable fuel : nat.
Hypothesis rng_range : forall n, random_value (rng n).

(** The oracle never repeats one number for [fuel] draws in a row. *)
Hypothesis rng_varies :
  forall q c,
    exists k, (k < fuel)%nat
              /\ Math_floor (mul (rng (q + k)) (of_Z 5)) <> Int (c - 1).

Lemma trials_returns answers score mistakes st p :
  exists l p',
    trials rng fuel answers score mistakes st p = Ok l p'
    /\ length l = length answers.
Proof.
  revert score mistakes st p.
  induction answers as [|num rest IH]; intros score mistakes st p.
  - exists [], p. split; reflexivity.
  - cbn [trials].
    destruct (handleAnswer num score mistakes st) as [[score' mistakes'] st1].
    destruct (rng_varies (p + 18) (currentNumber (nextRound st1)))
      as (k & Hk & Hne).
    destruct (coding_generateRound_returns rng rng_range fuel (nextRound st1) p k Hk Hne)
      as (st2 & p1 & Hg).
    rewrite (bind_Ok _ _ _ _ _ Hg).
    destruct (IH score' mistakes' st2 p1) as (more & p2 & Hm & Hlen).
    rewrite (bind_Ok _ _ _ _ _ Hm).
    exists (st2 :: more), p2. split; [reflexivity|]. simpl. congruence.
Qed.

(** A session returns one trial for its first render and one for each
    answer. *)
Lemma session_returns answers p :
  exists l p',
    session rng fuel answers p = Ok l p' /\ length l = S (length answers).
Proof.
  unfold session.
  destruct (rng_varies (p + 18) (currentNumber initial)) as (k & Hk & Hne).
  destruct (coding_generateRound_returns rng rng_range fuel initial p k Hk Hne)
    as (st0 & p1 & Hg).
  rewrite (bind_Ok _ _ _ _ _ Hg).
  destruct (trials_returns answers 0 0 st0 p1) as (more & p2 & Hm & Hlen).
  rewrite (bind_Ok _ _ _ _ _ Hm).
  exists (st0 :: more), p2. split; [reflexivity|]. simpl. congruence.
Qed.

End SessionProps.

(** The cycling oracle never gives one digit twice in a row, so two
    draws suffice for every do-while loop and every session over it
    returns its trials. *)
Lemma rng_cycle_digit n :
  Math_floor (mul (rng_cycle n) (of_Z 5)) = Int (Z.of_nat (n mod 5)).
Proof.
  unfold rng_cycle. pose proof (Nat.mod_upper_bound n 5 ltac:(lia)) as Hn.
  destruct (n mod 5)%nat as [|[|[|[|[|k]]]]]; [..|lia]; reflexivity.
Qed.

Lemma rng_cycle_varies q c :
  exists k, (k < 2)%nat
            /\ Math_floor (mul (rng_cycle (q + k)) (of_Z 5)) <> Int (c - 1).
Proof.
  destruct (Z.eq_dec (Z.of_nat (q mod 5)) (c - 1)) as [He|Hne].
  - exists 1%nat. split; [lia|]. rewrite rng_cycle_digit, <- He.
    intros H.
    assert (Hz : Z.of_nat ((q + 1) mod 5) = Z.of_nat (q mod 5)) by congruence.
    clear H.
    pose proof (Nat.div_mod_eq q 5). pose proof (Nat.div_mod_eq (q + 1) 5).
    pose proof (Nat.mod_upper_bound q 5). pose proof (Nat.mod_upper_bound (q + 1) 5).
    lia.
  - exists 0%nat. split; [lia|]. rewrite Nat.add_0_r, rng_cycle_digit.
    intros H. apply Hne. congruence.
Qed.

Lemma session_rng_cycle_returns answers p :
  exists l p',
    CodingGame.session rng_cycle 2 answers p = Ok l p'
    /\ length l = S (length answers).
Proof.
  exact (session_returns rng_cycle 2 rng_cycle_range rng_cycle_varies answers p).
Qed.

(** C6: in every coding session the targetDigit generated for a trial
    after the first differs from the targetDigit of the trial before. *)
Theorem consecutive_targets_differ
    (rng : nat -> number) (fuel : nat) (answers : list Z) (p : nat)
    (l : list CodingGame.State) (p' : nat) :
  CodingGame.session rng fuel answers p = Ok l p' ->
  forall k a b,
    l !! k = Some a -> l !! S k = Some b ->
    CodingGame.currentNumber b <> CodingGame.currentNumber a.
Proof.
  unfold CodingGame.session. intros H.
  apply bind_Ok_inv in H as (st0 & p1 & _ & H).
  apply bind_Ok_inv in H as (more & p2 & Hm & H).
  unfold ret in H. injection H as <- _.
  exact (trials_adjacent rng fuel answers 0 0 st0 p1 more p2 Hm).
Qed.

Lemma consecutive_targets_differ_witness :
  exists l p',
    CodingGame.session rng_cycle 3%nat [2; 4; 4; 1] 0%nat = Ok l p'
    /\ length l = 5%nat
    /\ forall k a b,
         l !! k = Some a -> l !! S k = Some b ->
         CodingGame.currentNumber b <> CodingGame.currentNumber a.
Proof.
  eexists _, _. split; [vm_compute; reflexivity|]. split; [reflexivity|].
  eapply (consecutive_targets_differ rng_cycle 3%nat [2; 4; 4; 1] 0%nat).
  vm_compute; reflexivity.
Defined.

(** C3 (the code departs from it): the first trial of a coding session
    never has targetDigit 1, because the do-while loop compares the draw
    with the initial value 1 of currentNumber.  So it is not the case that
    every digit of 1..5 is the first targetDigit under some sequence of
    random choices; and with a first draw that gives 1 the loop rejects
    it and draws again. *)
Theorem first_trial_never_one :
  (forall rng fuel answers p l p' st0,
      CodingGame.session rng fuel answers p = Ok l p' ->
      l !! 0%nat = Some st0 -> CodingGame.currentNumber st0 <> 1)
  /\ ~ (forall d, 1 <= d <= 5 ->
          exists rng fuel answers p l p' st0,
            CodingGame.session rng fuel answers p = Ok l p'
            /\ l !! 0%nat = Some st0 /\ CodingGame.currentNumber st0 = d)
  /\ targetDigits (CodingGame.session rng_first_one 1%nat [] 0%nat) = OutOfFuel
  /\ targetDigits (CodingGame.session rng_first_one 2%nat [] 0%nat) = Ok [3] 20%nat.
Proof.
  assert (Hgen : forall rng fuel answers p l p' st0,
             CodingGame.session rng fuel answers p = Ok l p' ->
             l !! 0%nat = Some st0 -> CodingGame.currentNumber st0 <> 1).
  { intros rng fuel answers p l p' st0 H Hl. unfold CodingGame.session in H.
    apply bind_Ok_inv in H as (st & p1 & Hg & H).
    apply bind_Ok_inv in H as (more & p2 & _ & H).
    unfold ret in H. injection H as <- _. injection Hl as <-.
    exact (generateRound_differs rng fuel CodingGame.initial p st p1 Hg). }
  split; [exact Hgen|]. split; [|split; vm_compute; reflexivity].
  intros Hall. destruct (Hall 1 ltac:(lia))
    as (rng & fuel & answers & p & l & p' & st0 & H & Hl & Hd).
  exact (Hgen rng fuel answers p l p' st0 H Hl Hd).
Qed.

Lemma first_trial_never_one_witness :
  exists l p' st0,
    CodingGame.session rng_first_one 2%nat [] 0%nat = Ok l p'
    /\ l !! 0%nat = Some st0 /\ CodingGame.currentNumber st0 <> 1.
Proof.
  eexists _, _, _. split; [vm_compute; reflexivity|].
  split; [reflexivity|].
  eapply (proj1 first_trial_never_one rng_first_one 2%nat [] 0%nat);
    [vm_compute; reflexivity|reflexivity].
Defined.

(** Every digit of 2..5 is the targetDigit of the first trial under some
    oracle. *)
Lemma first_trial_reaches_2_to_5 d :
  2 <= d <= 5 ->
  exists rng,
    (forall n, random_value (rng n))
    /\ exists p', targetDigits (CodingGame.session rng 1%nat [] 0%nat) = Ok [d] p'.
Proof.
  intros Hd. exists (rng_const (div (of_Z (2 * d - 1)) (of_Z 10))).
  assert (d = 2 \/ d = 3 \/ d = 4 \/ d = 5) as [-> | [-> | [-> | ->]]] by lia;
    (split; [intros n; split; [|split]; reflexivity
            |eexists; vm_compute; reflexivity]).
Qed.

(** ** useGameTimer *)

Section TimerProps.

Import useGameTimer.

(** While the display stays positive a countdown makes no call. *)
Lemma ticks_countdown timeLimit n st :
  is_endless timeLimit = false ->
  Z.of_nat n < timeDisplay st ->
  ticks timeLimit n st
  = ({| timeDisplay := timeDisplay st - Z.of_nat n;
        elapsedRef := elapsedRef st + Z.of_nat n |}, []).
Proof.
  intros He. revert st; induction n as [|n IH]; intros st Hn.
  - destruct st as [d e]. cbn. f_equal. f_equal; lia.
  - cbn [ticks]. rewrite IH.
    + unfold after_render, expiry_effect, tick. rewrite He.
      cbn [negb andb timeDisplay elapsedRef].
      destruct (Z.eqb_spec (timeDisplay st) (timeDisplay st - 1)); [lia|].
      destruct (Z.leb_spec (timeDisplay st - 1) 0); [lia|].
      cbn [app]. f_equal. f_equal; lia.
    + unfold tick. rewrite He. cbn [negb timeDisplay]. lia.
Qed.

(** The tick that brings the display to zero makes the one call, with
    the number of ticks counted. *)
Lemma ticks_expiry timeLimit n st :
  is_endless timeLimit = false ->
  timeDisplay st = Z.of_nat (S n) ->
  ticks timeLimit (S n) st
  = ({| timeDisplay := 0; elapsedRef := elapsedRef st + Z.of_nat (S n) |},
     [elapsedRef st + Z.of_nat (S n)]).
Proof.
  intros He. revert st; induction n as [|n IH]; intros st Hd.
  - cbn [ticks]. unfold after_render, expiry_effect, tick. rewrite He, Hd.
    reflexivity.
  - change (ticks timeLimit (S (S n)) st)
      with (let st' := tick timeLimit st in
            let calls := after_render timeLimit st st' in
            let '(final, more) := ticks timeLimit (S n) st' in
            (final, calls ++ more)).
    cbv zeta. rewrite IH.
    + unfold after_render, expiry_effect, tick. rewrite He, Hd. cbn [negb].
      cbn [timeDisplay elapsedRef andb].
      destruct (Z.eqb_spec (Z.of_nat (S (S n))) (Z.of_nat (S (S n)) - 1)); [lia|].
      destruct (Z.leb_spec (Z.of_nat (S (S n)) - 1) 0); [lia|].
      cbn [app]. f_equal; [f_equal|f_equal]; lia.
    + unfold tick. rewrite He, Hd. cbn [negb timeDisplay]. lia.
Qed.

(** A count-up makes no call; it counts the ticks. *)
Lemma ticks_endless n st :
  ticks endless n st
  = ({| timeDisplay := if (n =? 0)%nat then timeDisplay st
                       else elapsedRef st + Z.of_nat n;
        elapsedRef := elapsedRef st + Z.of_nat n |}, []).
Proof.
  revert st; induction n as [|n IH]; intros st.
  - destruct st as [d e]. cbn. f_equal. f_equal; lia.
  - cbn [ticks]. rewrite IH.
    unfold after_render, expiry_effect, tick.
    cbn [is_endless negb andb timeDisplay elapsedRef].
    destruct (_ =? _); cbn [app]; f_equal;
      (destruct n; [cbn; f_equal; lia|]);
      change (S (S n) =? 0)%nat with false; change (S n =? 0)%nat with false;
      cbn iota; f_equal; lia.
Qed.

End TimerProps.

(** C8: a countdown with limit L calls the end callback after exactly L
    ticks, with elapsed = L, and not before; a count-up session stopped
    after n ticks calls the end callback with elapsed = n. *)
Theorem timer_end_calls :
  (forall timeLimit, is_endless timeLimit = false ->
      (useGameTimer.run timeLimit (Z.to_nat (seconds timeLimit))).2
      = [seconds timeLimit]
      /\ forall k, (k < Z.to_nat (seconds timeLimit))%nat ->
                   (useGameTimer.run timeLimit k).2 = [])
  /\ (forall n, (useGameTimer.run endless n).2 = []
                /\ useGameTimer.stop (useGameTimer.run endless n).1 = [Z.of_nat n]).
Proof.
  split.
  - intros timeLimit He. split.
    + unfold useGameTimer.run.
      assert (Hs : exists n, Z.to_nat (seconds timeLimit) = S n
                             /\ seconds timeLimit = Z.of_nat (S n)).
      { destruct timeLimit; try discriminate; eexists; split; reflexivity. }
      destruct Hs as (n & -> & Hs).
      rewrite (ticks_expiry timeLimit n (useGameTimer.initial timeLimit) He).
      * unfold useGameTimer.expiry_effect, useGameTimer.initial. rewrite He.
        cbn [negb andb useGameTimer.timeDisplay useGameTimer.elapsedRef snd].
        rewrite Hs. cbn [app]. reflexivity.
      * unfold useGameTimer.initial. rewrite He. exact Hs.
    + intros k Hk. unfold useGameTimer.run.
      rewrite (ticks_countdown timeLimit k (useGameTimer.initial timeLimit) He).
      * unfold useGameTimer.expiry_effect, useGameTimer.initial. rewrite He.
        cbn [negb andb useGameTimer.timeDisplay snd].
        destruct timeLimit; try discriminate; reflexivity.
      * unfold useGameTimer.initial. rewrite He. cbn [useGameTimer.timeDisplay]. lia.
  - intros n. unfold useGameTimer.run. rewrite ticks_endless. split; reflexivity.
Qed.

Lemma timer_end_calls_witness :
  (useGameTimer.run limit_30 30).2 = [30]
  /\ (useGameTimer.run limit_30 29).2 = []
  /\ useGameTimer.stop (useGameTimer.run endless 47).1 = [47].
Proof.
  split; [|split].
  - apply (proj1 (proj1 timer_end_calls limit_30 eq_refl)).
  - apply (proj2 (proj1 timer_end_calls limit_30 eq_refl) 29%nat).
    vm_compute. lia.
  - apply (proj2 (proj2 timer_end_calls 47%nat)).
Defined.

(** ** App.endGame *)

Section EndGameProps.

Import App.

(** With at least 10 seconds the history becomes the history that the
    callback captured followed by the new record, in the state and in
    [localStorage]. *)
Lemma endGame_long captured now_id now_date finalElapsed w :
  10 <= finalElapsed ->
  let w' := endGame captured now_id now_date finalElapsed w in
  stats (state w')
  = stats captured ++ [newStat_of captured now_id now_date finalElapsed]
  /\ pri_stats w'
     = Some (stats captured ++ [newStat_of captured now_id now_date finalElapsed])
  /\ screen (state w') = screen_result
  /\ currentElapsed (state w') = finalElapsed.
Proof.
  intros He. unfold endGame. apply Z.leb_le in He. rewrite He.
  repeat split; reflexivity.
Qed.

(** With less than 10 seconds neither the history nor [localStorage]
    changes. *)
Lemma endGame_short captured now_id now_date finalElapsed w :
  finalElapsed < 10 ->
  let w' := endGame captured now_id now_date finalElapsed w in
  stats (state w') = stats (state w)
  /\ pri_stats w' = pri_stats w
  /\ screen (state w') = screen_result
  /\ currentPri (state w') = Int 0.
Proof.
  intros He. unfold endGame.
  destruct (Z.leb_spec 10 finalElapsed) as [?|_]; [lia|].
  repeat split; try reflexivity.
  cbn. unfold calculatePRI.
  enough (H : ltb (of_Z finalElapsed) (of_Z 10) = true) by (rewrite H; reflexivity).
  (* every integer below 10 converts to a number below 10 *)
  destruct finalElapsed as [|q|q].
  - reflexivity.
  - assert (Hq : (q = 1 \/ q = 2 \/ q = 3 \/ q = 4 \/ q = 5 \/ q = 6 \/ q = 7
                  \/ q = 8 \/ q = 9)%positive) by lia.
    repeat (destruct Hq as [-> | Hq]; [reflexivity|]). subst q; reflexivity.
  - unfold of_Z, binary_normalize, binary_round.
    destruct (shl_align _ _ _) as [mz ez].
    pose proof (binary_round_aux_not_nan true (Z.pos mz) ez loc_Exact
                  ltac:(lia)) as Hn.
    unfold binary_round_aux in *.
    destruct (shr_fexp _ _ _ _ _) as [mrs' e'].
    destruct (shr_fexp _ _ _ _ _) as [mrs'' e''].
    destruct (shr_m mrs''); [reflexivity| |discriminate].
    destruct (_ <=? _); reflexivity.
Qed.

End EndGameProps.

(** C7: at session finalize a SessionSummary is appended if and only if
    elapsedSeconds >= 10; when it is appended, exactly one record is added
    at the end of the history and the records stored before are unchanged
    and keep their order; when elapsedSeconds < 10 the stored history is
    unchanged. *)
Theorem endGame_appends_iff_ten_seconds
    (w : App.World) (now_id now_date finalElapsed : Z) :
  let w' := App.current_endGame w now_id now_date finalElapsed w in
  let history := App.stats (App.state w) in
  ((exists r, App.stats (App.state w') = history ++ [r]) <-> 10 <= finalElapsed)
  /\ (10 <= finalElapsed ->
      exists r, App.stats (App.state w') = history ++ [r]
                /\ App.pri_stats w' = Some (history ++ [r])
                /\ StatEntry.elapsed r = finalElapsed)
  /\ (finalElapsed < 10 ->
      App.stats (App.state w') = history /\ App.pri_stats w' = App.pri_stats w).
Proof.
  intros w' history. subst w' history. unfold App.current_endGame.
  assert (Hlong : 10 <= finalElapsed ->
           exists r,
             App.stats (App.state (App.endGame (App.state w) now_id now_date
                                     finalElapsed w))
             = App.stats (App.state w) ++ [r]
             /\ App.pri_stats (App.endGame (App.state w) now_id now_date
                                 finalElapsed w)
                = Some (App.stats (App.state w) ++ [r])
             /\ StatEntry.elapsed r = finalElapsed).
  { intros He.
    destruct (endGame_long (App.state w) now_id now_date finalElapsed w He)
      as (Hs & Hp & _).
    eexists. split; [exact Hs|]. split; [exact Hp|reflexivity]. }
  assert (Hshort : finalElapsed < 10 ->
           App.stats (App.state (App.endGame (App.state w) now_id now_date
                                   finalElapsed w))
           = App.stats (App.state w)
           /\ App.pri_stats (App.endGame (App.state w) now_id now_date
                               finalElapsed w)
              = App.pri_stats w).
  { intros He.
    destruct (endGame_short (App.state w) now_id now_date finalElapsed w He)
      as (Hs & Hp & _).
    split; assumption. }
  split; [|split; assumption].
  split.
  - intros (r & Hr). destruct (Z.le_gt_cases 10 finalElapsed) as [?|Hlt]; [assumption|].
    destruct (Hshort Hlt) as (Hs & _). rewrite Hs in Hr.
    apply (f_equal length) in Hr. rewrite length_app in Hr. simpl in Hr. lia.
  - intros He. destruct (Hlong He) as (r & Hr & _). exists r; exact Hr.
Qed.

Lemma endGame_appends_iff_ten_seconds_witness :
  (exists r,
      App.stats (App.state (App.current_endGame finishing_session 1000 1000 60
                              finishing_session)) = [] ++ [r]
      /\ App.pri_stats (App.current_endGame finishing_session 1000 1000 60
                          finishing_session) = Some ([] ++ [r])
      /\ StatEntry.elapsed r = 60)
  /\ App.stats (App.state (App.current_endGame finishing_session 1000 1000 5
                             finishing_session)) = []
  /\ App.pri_stats (App.current_endGame finishing_session 1000 1000 5
                      finishing_session) = Some [].
Proof.
  split.
  - apply (proj1 (proj2 (endGame_appends_iff_ten_seconds finishing_session
                           1000 1000 60))). lia.
  - apply (proj2 (proj2 (endGame_appends_iff_ten_seconds finishing_session
                           1000 1000 5))). lia.
Defined.

(** C4 as stated fails: [endGame] has no guard.  After a first call has
    finalized the session, a second call through the callback of the
    re-rendered [App] appends a second record, even at the same
    millisecond; a second call through the callback of the render before
    the first call, a quarter of a second later, replaces the record by
    its own. *)
Lemma endGame_twice_counterexample :
  App.screen (App.state finalized_once) = screen_result
  /\ length (App.stats (App.state finalized_once)) = 1%nat
  /\ App.current_endGame finalized_once 1000 1000 60 finalized_once
     <> finalized_once
  /\ length (App.stats (App.state
               (App.current_endGame finalized_once 1000 1000 60
                  finalized_once))) = 2%nat
  /\ length <$> App.pri_stats
                  (App.current_endGame finalized_once 1000 1000 60
                     finalized_once) = Some 2%nat
  /\ App.current_endGame finishing_session 1250 1250 60 finalized_once
     <> finalized_once
  /\ StatEntry.date <$> App.stats (App.state
        (App.current_endGame finishing_session 1250 1250 60 finalized_once))
     = [1250].
Proof.
  split; [reflexivity|]. split; [reflexivity|].
  split.
  { intros H. apply (f_equal (fun w => length (App.stats (App.state w)))) in H.
    vm_compute in H. discriminate. }
  split; [reflexivity|]. split; [reflexivity|].
  split; [|reflexivity].
  intros H.
  apply (f_equal (fun w => StatEntry.date <$> App.stats (App.state w))) in H.
  vm_compute in H. discriminate.
Qed.

(** C4, amended: each call of the end callback with at least 10 seconds
    sets the history to the history its render captured plus one new
    record.  A second call through the callback of the re-rendered [App]
    therefore appends a second record, and a second call through the
    callback of the render before the first call leaves exactly one new
    record, the one of the second call. *)
Theorem endGame_second_call
    (w : App.World) (id1 date1 elapsed1 id2 date2 elapsed2 : Z) :
  10 <= elapsed1 -> 10 <= elapsed2 ->
  let history := App.stats (App.state w) in
  let w1 := App.current_endGame w id1 date1 elapsed1 w in
  let r1 := App.newStat_of (App.state w) id1 date1 elapsed1 in
  let again := App.current_endGame w1 id2 date2 elapsed2 w1 in
  let stale := App.current_endGame w id2 date2 elapsed2 w1 in
  (App.stats (App.state w1) = history ++ [r1]
   /\ App.pri_stats w1 = Some (history ++ [r1]))
  /\ (App.stats (App.state again)
      = history ++ [r1; App.newStat_of (App.state w1) id2 date2 elapsed2]
      /\ App.pri_stats again
         = Some (history ++ [r1; App.newStat_of (App.state w1) id2 date2 elapsed2]))
  /\ (App.stats (App.state stale)
      = history ++ [App.newStat_of (App.state w) id2 date2 elapsed2]
      /\ App.pri_stats stale
         = Some (history ++ [App.newStat_of (App.state w) id2 date2 elapsed2])).
Proof.
  intros H1 H2 history w1 r1 again stale.
  subst history w1 r1 again stale. unfold App.current_endGame.
  destruct (endGame_long (App.state w) id1 date1 elapsed1 w H1) as (Hs1 & Hp1 & _).
  split; [split; assumption|]. split.
  - destruct (endGame_long
                (App.state (App.endGame (App.state w) id1 date1 elapsed1 w))
                id2 date2 elapsed2
                (App.endGame (App.state w) id1 date1 elapsed1 w) H2)
      as (Hs2 & Hp2 & _).
    rewrite Hs2, Hp2, Hs1, <- !app_assoc. split; reflexivity.
  - destruct (endGame_long (App.state w) id2 date2 elapsed2
                (App.endGame (App.state w) id1 date1 elapsed1 w) H2)
      as (Hs2 & Hp2 & _).
    split; assumption.
Qed.

Lemma endGame_second_call_witness :
  length (App.stats (App.state
            (App.current_endGame finalized_once 1250 1250 60 finalized_once)))
  = 2%nat
  /\ length (App.stats (App.state
               (App.current_endGame finishing_session 1250 1250 60
                  finalized_once))) = 1%nat.
Proof.
  destruct (endGame_second_call finishing_session 1000 1000 60 1250 1250 60
              ltac:(lia) ltac:(lia)) as (_ & (Ha & _) & (Hs & _)).
  split.
  - unfold finalized_once. rewrite Ha. reflexivity.
  - unfold finalized_once. rewrite Hs. reflexivity.
Defined.

(* ================================================================== *)
(** * Further properties of the code *)

(** ** shuffleArray *)

(** X1: for every array (of at most 2^32 - 1 elements) and every oracle
    whose values are binary64 numbers of [0, 1), shuffleArray returns: each
    index, the floor of a binary64 product, is within the array.  The
    result is a permutation of the argument (same length, same elements,
    duplicate-free if the argument is), and the call has made one draw for
    each index from length - 1 down to 1. *)
Theorem shuffleArray_permutation {T} (rng : nat -> number) (array : list T) (p : nat) :
  (forall n, random_value (rng n)) ->
  Z.of_nat (length array) <= max_array_length ->
  exists newArr,
    shuffleArray rng array p = Ok newArr (p + (length array - 1))%nat
    /\ newArr ≡ₚ array
    /\ length newArr = length array
    /\ (forall x, x ∈ newArr <-> x ∈ array)
    /\ (NoDup array -> NoDup newArr).
Proof.
  intros Hr Hlen.
  destruct (shuffleArray_ok rng Hr array p Hlen) as (newArr & Hs & Hp).
  exists newArr. split; [exact Hs|]. split; [exact Hp|].
  split; [exact (Permutation_length Hp)|]. split.
  - intros x. rewrite Hp. reflexivity.
  - intros Hnd. rewrite Hp. exact Hnd.
Qed.

Lemma shuffleArray_permutation_witness :
  exists newArr,
    shuffleArray rng_cycle [10; 20; 30; 40] 0%nat = Ok newArr 3%nat
    /\ newArr ≡ₚ [10; 20; 30; 40]
    /\ length newArr = 4%nat
    /\ (forall x, x ∈ newArr <-> x ∈ [10; 20; 30; 40])
    /\ (NoDup [10; 20; 30; 40] -> NoDup newArr).
Proof.
  apply (shuffleArray_permutation rng_cycle [10; 20; 30; 40] 0%nat).
  - exact rng_cycle_range.
  - unfold max_array_length. simpl. lia.
Defined.

(** ** calculatePRI *)

Lemma ltb_false_geb_true x y :
  is_nan x = false -> is_nan y = false -> ltb x y = false -> geb x y = true.
Proof.
  unfold geb, ltb, SFleb, SFltb. rewrite (SFcompare_antisym x y).
  destruct x, y; try discriminate; intros _ _;
    destruct (SFcompare _ _) as [[]|] eqn:E; simpl; try congruence;
    simpl in E; try discriminate;
    repeat match type of E with
           | context [if ?b then _ else _] => destruct b
           | context [match ?c with Eq => _ | Lt => _ | Gt => _ end] => destruct c
           end; discriminate.
Qed.

(** X2: the sentinel 0 is unambiguous: for finite score, mistakes and
    elapsedSeconds the function returns 0 exactly when elapsedSeconds < 10. *)
Theorem calculatePRI_zero_iff_short
    (score mistakes elapsedSeconds : number) (gameType : GameType) :
  is_finite score = true -> is_finite mistakes = true ->
  is_finite elapsedSeconds = true ->
  (calculatePRI score mistakes elapsedSeconds gameType = Int 0
   <-> ltb elapsedSeconds (of_Z 10) = true).
Proof.
  intros Hs Hm He. split.
  - intros H0. destruct (ltb elapsedSeconds (of_Z 10)) eqn:Hlt; [reflexivity|].
    exfalso.
    assert (Hge : geb elapsedSeconds (of_Z 10) = true).
    { apply ltb_false_geb_true; [destruct elapsedSeconds; done|reflexivity|exact Hlt]. }
    unfold calculatePRI in H0. rewrite Hlt in H0.
    destruct (clamp_range
                (Math_round
                   (add (of_Z 100)
                      (mul (div (sub (mul (div (Math_max (of_Z 0)
                                                  (sub score (mul mistakes (of_Z 1))))
                                             elapsedSeconds) (of_Z 60))
                                  match gameType with
                                  | symbol_match => of_Z 45
                                  | _ => of_Z 30
                                  end)
                              match gameType with
                              | symbol_match => of_Z 12
                              | _ => of_Z 8
                              end) (of_Z 15)))))
      as (z & Hz & Hr).
    { apply Math_round_not_nan, pri_not_nan; try assumption.
      - apply geb_10_nonzero_finite; assumption.
      - destruct gameType; exact I.
      - destruct gameType; exact I. }
    rewrite Hz in H0. injection H0 as ->. lia.
  - intros Hlt. unfold calculatePRI. rewrite Hlt. reflexivity.
Qed.

Lemma calculatePRI_zero_iff_short_witness :
  calculatePRI (of_Z 12) (of_Z 3) (of_Z 9) coding = Int 0
  <-> ltb (of_Z 9) (of_Z 10) = true.
Proof.
  apply (calculatePRI_zero_iff_short (of_Z 12) (of_Z 3) (of_Z 9) coding);
    reflexivity.
Defined.

(** X3: a session without a net correct answer (score - mistakes is zero or
    negative) gets the index 44 in either mode, whatever its duration of
    at least 10 seconds: the rate is 0 and both modes map it to 43.75. *)
Theorem calculatePRI_no_net_score
    (score mistakes elapsedSeconds : number) (gameType : GameType) :
  valid mistakes = true ->
  geb elapsedSeconds (of_Z 10) = true ->
  geb (of_Z 0) (sub score mistakes) = true ->
  calculatePRI score mistakes elapsedSeconds gameType = Int 44.
Proof.
  intros Hv He Hd. unfold calculatePRI.
  rewrite (geb_true_ltb_false _ _ He), (mul_one _ Hv).
  assert (Hraw : Math_max (of_Z 0) (sub score mistakes) = S754_zero false).
  { destruct (sub score mistakes) as [[]|[]| |[] m e]; try discriminate;
      reflexivity. }
  rewrite Hraw.
  assert (Hrate : div (S754_zero false) elapsedSeconds = S754_zero false).
  { destruct elapsedSeconds as [[]|[]| |[] m e]; try discriminate; reflexivity. }
  rewrite Hrate. destruct gameType; reflexivity.
Qed.

Lemma calculatePRI_no_net_score_witness :
  calculatePRI (of_Z 7) (of_Z 9) (of_Z 45) symbol_match = Int 44.
Proof.
  apply (calculatePRI_no_net_score (of_Z 7) (of_Z 9) (of_Z 45) symbol_match);
    reflexivity.
Defined.

(** ** Integers as binary64 numbers *)

Lemma of_Z_finite z : - 2 ^ 53 < z < 2 ^ 53 -> is_finite (of_Z z) = true.
Proof.
  intros Hz. destruct z as [|m|m]; [reflexivity| |]; unfold of_Z, binary_normalize.
  - destruct (binary_round_exact false m ltac:(lia)) as (mz & -> & _). reflexivity.
  - destruct (binary_round_exact true m ltac:(lia)) as (mz & -> & _). reflexivity.
Qed.

(** The conversion keeps the order with respect to the literal [10]. *)
Lemma of_Z_ge_10 z : 10 <= z < 2 ^ 53 -> geb (of_Z z) (of_Z 10) = true.
Proof.
  intros Hz. destruct z as [|m|m]; [lia| |lia].
  unfold of_Z at 1, binary_normalize.
  destruct (binary_round_exact false m ltac:(lia)) as (mz & -> & Hmz).
  pose proof (digits2_pos_bounds m) as [_ Hhi].
  assert (Hd : 4 <= Z.pos (digits2_pos m)).
  { destruct (Z.le_gt_cases 4 (Z.pos (digits2_pos m))) as [?|Hlt]; [assumption|].
    assert (2 ^ Z.pos (digits2_pos m) <= 2 ^ 3) by (apply Z.pow_le_mono_r; lia).
    lia. }
  change (of_Z 10) with (S754_finite false 5629499534213120 (-49)).
  unfold geb, SFleb, SFcompare.
  destruct (Z.compare_spec (-49) (Z.pos (digits2_pos m) - 53)) as [He|Hl|Hg];
    [|reflexivity|lia].
  rewrite Pos.compare_cont_spec. cbn [Pos.switch_Eq].
  assert (Hd4 : Z.pos (digits2_pos m) = 4) by lia.
  rewrite Hd4 in Hmz. change (2 ^ (53 - 4)) with 562949953421312 in Hmz.
  destruct (Pos.compare_spec 5629499534213120 mz) as [?|?|Hgt]; try reflexivity.
  exfalso. destruct Hz as [Hz _]. clear - Hmz Hgt Hz.
  apply Pos2Z.pos_lt_pos in Hgt. lia.
Qed.

(** ** The history over the events of App *)

Section HistoryProps.

Import App Handlers.

(** An event other than the end of a measured session leaves the history
    and the stored item alone; the end of a measured session appends its
    record to both. *)
Lemma handle_history ev w :
  (is_measured ev = false ->
     stats (state (handle ev w)) = stats (state w)
     /\ pri_stats (handle ev w) = pri_stats w)
  /\ (is_measured ev = true ->
      exists r, stats (state (handle ev w)) = stats (state w) ++ [r]
                /\ pri_stats (handle ev w) = Some (stats (state w) ++ [r])).
Proof.
  destruct ev as [t|type| | |now_id now_date finalElapsed| |];
    cbn [is_measured handle];
    try (split; [intros _; split; reflexivity|discriminate]).
  split.
  - intros Hm. apply Z.leb_gt in Hm.
    destruct (endGame_short (state w) now_id now_date finalElapsed w Hm)
      as (Hs & Hp & _).
    split; assumption.
  - intros Hm. apply Z.leb_le in Hm.
    destruct (endGame_long (state w) now_id now_date finalElapsed w Hm)
      as (Hs & Hp & _).
    eexists. split; [exact Hs|exact Hp].
Qed.

Lemma run_app events1 events2 w :
  run (events1 ++ events2) w = run events2 (run events1 w).
Proof.
  revert w; induction events1 as [|ev rest IH]; intros w; [reflexivity|].
  cbn [app run]. apply IH.
Qed.

(** Answers only move the two counters. *)
Lemma run_answers answers w :
  forallb is_answer answers = true ->
  let w' := run answers w in
  score (state w')
  = score (state w) + Z.of_nat (length (List.filter is_correct answers))
  /\ mistakes (state w')
     = mistakes (state w) + Z.of_nat (length (List.filter is_wrong answers))
  /\ gameType (state w') = gameType (state w)
  /\ timeLimit (state w') = timeLimit (state w)
  /\ stats (state w') = stats (state w)
  /\ pri_stats w' = pri_stats w.
Proof.
  revert w; induction answers as [|ev rest IH]; intros w Ha.
  - cbn. repeat split; lia.
  - cbn [forallb] in Ha. apply andb_prop in Ha as [Hev Hrest].
    cbn [run]. cbv zeta.
    destruct (IH (handle ev w) Hrest) as (Hs & Hm & Hg & Ht & Hst & Hp).
    rewrite Hs, Hm, Hg, Ht, Hst, Hp.
    destruct ev; try discriminate; cbn; repeat split; lia.
Qed.

End HistoryProps.

(** X4: the history is append-only over every sequence of events of the
    application: the records held before stay, in their order, and one
    record is added for each end of a session of at least 10 seconds;
    if the stored item held the history before, it holds it afterwards. *)
Theorem history_append_only (events : list Handlers.Event) (w : App.World) :
  exists added,
    App.stats (App.state (Handlers.run events w))
    = App.stats (App.state w) ++ added
    /\ length added = length (List.filter Handlers.is_measured events)
    /\ (App.pri_stats w = Some (App.stats (App.state w)) ->
        App.pri_stats (Handlers.run events w)
        = Some (App.stats (App.state (Handlers.run events w)))).
Proof.
  revert w; induction events as [|ev rest IH]; intros w.
  - exists []. cbn. rewrite app_nil_r. repeat split. intros H; exact H.
  - cbn [Handlers.run List.filter].
    destruct (IH (Handlers.handle ev w)) as (added & Hs & Hl & Hsync).
    destruct (handle_history ev w) as [Hno Hyes].
    destruct (Handlers.is_measured ev) eqn:Hm.
    + destruct (Hyes eq_refl) as (r & Hr & Hp).
      exists (r :: added). split; [|split].
      * rewrite Hs, Hr, <- app_assoc. reflexivity.
      * cbn. lia.
      * intros _. apply Hsync. rewrite Hp, Hr. reflexivity.
    + destruct (Hno eq_refl) as (Hr & Hp).
      exists added. split; [|split].
      * rewrite Hs, Hr. reflexivity.
      * exact Hl.
      * intros Hw. apply Hsync. rewrite Hp, Hr. exact Hw.
Qed.

Lemma history_append_only_witness :
  exists added,
    App.stats (App.state
      (Handlers.run [Handlers.End 1 1 5; Handlers.Start coding_mode;
                     Handlers.AnswerCorrect; Handlers.End 2 2 30]
         finishing_session))
    = App.stats (App.state finishing_session) ++ added
    /\ length added = 1%nat
    /\ App.pri_stats
         (Handlers.run [Handlers.End 1 1 5; Handlers.Start coding_mode;
                        Handlers.AnswerCorrect; Handlers.End 2 2 30]
            finishing_session)
       = Some (App.stats (App.state
           (Handlers.run [Handlers.End 1 1 5; Handlers.Start coding_mode;
                          Handlers.AnswerCorrect; Handlers.End 2 2 30]
              finishing_session))).
Proof.
  destruct (history_append_only
              [Handlers.End 1 1 5; Handlers.Start coding_mode;
               Handlers.AnswerCorrect; Handlers.End 2 2 30]
              finishing_session) as (added & Hs & Hl & Hsync).
  exists added. split; [exact Hs|]. split; [exact Hl|].
  apply Hsync. reflexivity.
Defined.

(** X5: the record of a session reports that session: started with a mode,
    answered, and ended after at least 10 seconds, it appends one record
    whose score and mistakes count the correct and the wrong answers
    since the start (the counters of an earlier session are reset), with
    the mode started, the time limit picked and the seconds elapsed. *)
Theorem session_record
    (type : Mode) (answers : list Handlers.Event)
    (now_id now_date finalElapsed : Z) (w : App.World) :
  forallb Handlers.is_answer answers = true ->
  10 <= finalElapsed ->
  exists r,
    App.stats (App.state
      (Handlers.run
         (Handlers.Start type :: answers
            ++ [Handlers.End now_id now_date finalElapsed]) w))
    = App.stats (App.state w) ++ [r]
    /\ StatEntry.score r
       = Z.of_nat (length (List.filter Handlers.is_correct answers))
    /\ StatEntry.mistakes r
       = Z.of_nat (length (List.filter Handlers.is_wrong answers))
    /\ StatEntry.score r + StatEntry.mistakes r = Z.of_nat (length answers)
    /\ StatEntry.gameType r = gameType_of_mode type
    /\ StatEntry.timeLimit r = App.timeLimit (App.state w)
    /\ StatEntry.elapsed r = finalElapsed
    /\ StatEntry.date r = now_date.
Proof.
  intros Ha He. cbn [Handlers.run]. rewrite run_app. cbn [Handlers.run].
  set (w0 := Handlers.handle (Handlers.Start type) w).
  destruct (run_answers answers w0 Ha) as (Hs & Hm & Hg & Ht & Hst & _).
  cbn [Handlers.handle]. unfold App.current_endGame.
  destruct (endGame_long (App.state (Handlers.run answers w0)) now_id now_date
              finalElapsed (Handlers.run answers w0) He) as (Hr & _).
  eexists. split; [rewrite Hr, Hst; reflexivity|].
  cbn [StatEntry.score StatEntry.mistakes StatEntry.gameType
       StatEntry.timeLimit StatEntry.elapsed StatEntry.date App.newStat_of].
  rewrite Hs, Hm, Hg, Ht.
  split; [reflexivity|]. split; [reflexivity|]. split; [|repeat split].
  cbn. clear - Ha. induction answers as [|ev rest IH]; [reflexivity|].
  cbn [forallb] in Ha. apply andb_prop in Ha as [Hev Hrest].
  specialize (IH Hrest). destruct ev; try discriminate; cbn in *; lia.
Qed.

Lemma session_record_witness :
  exists r,
    App.stats (App.state
      (Handlers.run
         (Handlers.Start coding_mode
            :: [Handlers.AnswerCorrect; Handlers.AnswerWrong;
                Handlers.AnswerCorrect]
            ++ [Handlers.End 7 7 30]) finalized_once))
    = App.stats (App.state finalized_once) ++ [r]
    /\ StatEntry.score r = 2 /\ StatEntry.mistakes r = 1.
Proof.
  destruct (session_record coding_mode
              [Handlers.AnswerCorrect; Handlers.AnswerWrong;
               Handlers.AnswerCorrect] 7 7 30 finalized_once eq_refl
              ltac:(lia)) as (r & Hr & Hs & Hm & _).
  exists r. split; [exact Hr|]. split; [exact Hs|exact Hm].
Defined.

(** X6: every record that endGame stores has an index within the range
    40..160 of the chart, and it is the index then shown: for counters
    below 2^53 and a session of at least 10 seconds the record appended
    has an integer pri of 40..160, equal to currentPri. *)
Theorem endGame_record_pri_range
    (w : App.World) (now_id now_date finalElapsed : Z) :
  10 <= finalElapsed < 2 ^ 53 ->
  - 2 ^ 53 < App.score (App.state w) < 2 ^ 53 ->
  - 2 ^ 53 < App.mistakes (App.state w) < 2 ^ 53 ->
  exists r z,
    App.stats (App.state (App.current_endGame w now_id now_date finalElapsed w))
    = App.stats (App.state w) ++ [r]
    /\ StatEntry.pri r = Int z
    /\ 40 <= z <= 160
    /\ App.currentPri
         (App.state (App.current_endGame w now_id now_date finalElapsed w))
       = Int z.
Proof.
  intros He Hs Hm. unfold App.current_endGame.
  destruct (endGame_long (App.state w) now_id now_date finalElapsed w
              ltac:(lia)) as (Hr & _).
  pose proof (of_Z_ge_10 finalElapsed He) as Hge.
  destruct (clamp_range
              (Math_round
                 (add (of_Z 100)
                    (mul (div (sub (mul (div (Math_max (of_Z 0)
                                                (sub (of_Z (App.score (App.state w)))
                                                   (mul (of_Z (App.mistakes (App.state w)))
                                                      (of_Z 1))))
                                           (of_Z finalElapsed)) (of_Z 60))
                                match App.gameType (App.state w) with
                                | symbol_match => of_Z 45
                                | _ => of_Z 30
                                end)
                            match App.gameType (App.state w) with
                            | symbol_match => of_Z 12
                            | _ => of_Z 8
                            end) (of_Z 15)))))
    as (z & Hz & Hrange).
  { apply Math_round_not_nan, pri_not_nan.
    - apply of_Z_finite, Hs.
    - apply of_Z_finite, Hm.
    - apply geb_10_nonzero_finite; [apply of_Z_finite; lia|exact Hge].
    - destruct (App.gameType (App.state w)); exact I.
    - destruct (App.gameType (App.state w)); exact I. }
  assert (Hpri : calculatePRI (of_Z (App.score (App.state w)))
                   (of_Z (App.mistakes (App.state w))) (of_Z finalElapsed)
                   (App.gameType (App.state w)) = Int z).
  { unfold calculatePRI. rewrite (geb_true_ltb_false _ _ Hge). exact Hz. }
  exists (App.newStat_of (App.state w) now_id now_date finalElapsed), z.
  split; [exact Hr|]. split; [exact Hpri|]. split; [exact Hrange|].
  unfold App.endGame. destruct (10 <=? finalElapsed); exact Hpri.
Qed.

Lemma endGame_record_pri_range_witness :
  exists r z,
    App.stats (App.state (App.current_endGame finishing_session 1 1 60
                            finishing_session))
    = App.stats (App.state finishing_session) ++ [r]
    /\ StatEntry.pri r = Int z
    /\ 40 <= z <= 160
    /\ App.currentPri
         (App.state (App.current_endGame finishing_session 1 1 60
                       finishing_session))
       = Int z.
Proof.
  apply (endGame_record_pri_range finishing_session 1 1 60); cbn; lia.
Defined.

(** X7: the result screen never shows the sentinel as an index: after
    endGame it shows the text for an unmeasurable session exactly when
    fewer than 10 seconds elapsed, and then nothing was stored; otherwise
    it shows the pri of the record just appended. *)
Theorem result_panel_after_endGame
    (w : App.World) (now_id now_date finalElapsed : Z) :
  let w' := App.current_endGame w now_id now_date finalElapsed w in
  App.screen (App.state w') = screen_result
  /\ (ResultScreen.panel_of (App.state w') = ResultScreen.unmeasurable
      <-> finalElapsed < 10)
  /\ (finalElapsed < 10 ->
      App.stats (App.state w') = App.stats (App.state w))
  /\ (10 <= finalElapsed ->
      exists r, last (App.stats (App.state w')) = Some r
                /\ ResultScreen.panel_of (App.state w')
                   = ResultScreen.shown (StatEntry.pri r)).
Proof.
  intros w'. subst w'. unfold App.current_endGame.
  assert (Hel : App.currentElapsed
                  (App.state (App.endGame (App.state w) now_id now_date
                                finalElapsed w)) = finalElapsed).
  { unfold App.endGame. destruct (10 <=? finalElapsed); reflexivity. }
  assert (Hpri : App.currentPri
                   (App.state (App.endGame (App.state w) now_id now_date
                                 finalElapsed w))
                 = StatEntry.pri (App.newStat_of (App.state w) now_id now_date
                                    finalElapsed)).
  { unfold App.endGame. destruct (10 <=? finalElapsed); reflexivity. }
  split; [unfold App.endGame; destruct (10 <=? finalElapsed); reflexivity|].
  unfold ResultScreen.panel_of, ResultScreen.indexPanel. rewrite Hel, Hpri.
  split; [|split].
  - destruct (Z.ltb_spec finalElapsed 10); split; intros H'; try reflexivity;
      try assumption; try discriminate; lia.
  - intros He.
    exact (proj1 (endGame_short (App.state w) now_id now_date finalElapsed w He)).
  - intros He.
    destruct (endGame_long (App.state w) now_id now_date finalElapsed w He)
      as (Hs & _).
    exists (App.newStat_of (App.state w) now_id now_date finalElapsed).
    rewrite Hs, last_snoc. split; [reflexivity|].
    destruct (Z.ltb_spec finalElapsed 10); [lia|reflexivity].
Qed.

Lemma result_panel_after_endGame_witness :
  App.stats (App.state (App.current_endGame finishing_session 1 1 9
                          finishing_session))
  = App.stats (App.state finishing_session)
  /\ exists r,
       last (App.stats (App.state (App.current_endGame finishing_session 1 1 10
                                     finishing_session))) = Some r
       /\ ResultScreen.panel_of
            (App.state (App.current_endGame finishing_session 1 1 10
                          finishing_session))
          = ResultScreen.shown (StatEntry.pri r).
Proof.
  split.
  - apply (proj1 (proj2 (proj2 (result_panel_after_endGame finishing_session
                                  1 1 9)))). lia.
  - apply (proj2 (proj2 (proj2 (result_panel_after_endGame finishing_session
                                  1 1 10)))). lia.
Defined.

(** ** More on useGameTimer *)

Section TimerMoreProps.

Import useGameTimer.

Lemma ticks_app timeLimit n m st :
  ticks timeLimit (n + m) st
  = let '(s1, c1) := ticks timeLimit n st in
    let '(s2, c2) := ticks timeLimit m s1 in
    (s2, c1 ++ c2).
Proof.
  revert st; induction n as [|n IH]; intros st.
  - cbn. destruct (ticks timeLimit m st); reflexivity.
  - cbn [Nat.add ticks]. rewrite IH.
    destruct (ticks timeLimit n (tick timeLimit st)) as [s1 c1].
    destruct (ticks timeLimit m s1) as [s2 c2].
    rewrite app_assoc. reflexivity.
Qed.

(** Once the display is at or below zero every tick of a countdown calls
    [onEnd]. *)
Lemma ticks_after_expiry timeLimit k st :
  is_endless timeLimit = false ->
  timeDisplay st <= 0 ->
  ticks timeLimit k st
  = ({| timeDisplay := timeDisplay st - Z.of_nat k;
        elapsedRef := elapsedRef st + Z.of_nat k |},
     seqZ (elapsedRef st + 1) (Z.of_nat k)).
Proof.
  intros He. revert st; induction k as [|k IH]; intros st Hd.
  - destruct st as [d e]. cbn. f_equal. f_equal; lia.
  - cbn [ticks]. rewrite IH.
    + unfold after_render, expiry_effect, tick. rewrite He.
      cbn [negb andb timeDisplay elapsedRef].
      destruct (Z.eqb_spec (timeDisplay st) (timeDisplay st - 1)); [lia|].
      destruct (Z.leb_spec (timeDisplay st - 1) 0); [|lia].
      f_equal; [f_equal; lia|].
      rewrite Nat2Z.inj_succ, (seqZ_cons (elapsedRef st + 1)) by lia.
      cbn [app]. f_equal. f_equal; lia.
    + unfold tick. rewrite He. cbn [negb timeDisplay]. lia.
Qed.

End TimerMoreProps.

(** X8: the state of the hook after n ticks: elapsedRef counts the ticks,
    and timeDisplay shows them in endless mode and the limit minus them in
    a countdown (negative past the limit). *)
Theorem timer_state_after_ticks (timeLimit : TimeLimit) (n : nat) :
  (useGameTimer.run timeLimit n).1
  = {| useGameTimer.timeDisplay :=
         if is_endless timeLimit then Z.of_nat n
         else seconds timeLimit - Z.of_nat n;
       useGameTimer.elapsedRef := Z.of_nat n |}.
Proof.
  unfold useGameTimer.run.
  destruct (is_endless timeLimit) eqn:He.
  - destruct timeLimit; try discriminate. rewrite ticks_endless.
    cbn [fst useGameTimer.initial is_endless useGameTimer.timeDisplay
         useGameTimer.elapsedRef].
    destruct n; cbn [Nat.eqb]; f_equal; lia.
  - destruct (Z.lt_ge_cases (Z.of_nat n) (seconds timeLimit)) as [Hlt|Hge].
    + rewrite (ticks_countdown timeLimit n (useGameTimer.initial timeLimit) He).
      * unfold useGameTimer.initial. rewrite He. cbn. f_equal.
      * unfold useGameTimer.initial. rewrite He. exact Hlt.
    + assert (Hs : exists L, Z.to_nat (seconds timeLimit) = S L
                             /\ seconds timeLimit = Z.of_nat (S L)).
      { destruct timeLimit; try discriminate; eexists; split; reflexivity. }
      destruct Hs as (L & HL & Hs).
      replace n with (S L + (n - S L))%nat by lia.
      rewrite ticks_app.
      rewrite (ticks_expiry timeLimit L (useGameTimer.initial timeLimit) He)
        by (unfold useGameTimer.initial; rewrite He; exact Hs).
      rewrite (ticks_after_expiry timeLimit (n - S L) _ He)
        by (cbn; lia).
      cbn [fst useGameTimer.timeDisplay useGameTimer.elapsedRef
           useGameTimer.initial].
      f_equal; lia.
Qed.

(** X9: the hook does not stop by itself: as long as it stays mounted, a
    countdown with limit L calls the end callback at tick L and again at
    every later tick, with L, L + 1, L + 2, ... *)
Theorem timer_keeps_calling (timeLimit : TimeLimit) (k : nat) :
  is_endless timeLimit = false ->
  (useGameTimer.run timeLimit (Z.to_nat (seconds timeLimit) + k)).2
  = seqZ (seconds timeLimit) (Z.of_nat k + 1).
Proof.
  intros He. unfold useGameTimer.run.
  assert (Hs : exists L, Z.to_nat (seconds timeLimit) = S L
                         /\ seconds timeLimit = Z.of_nat (S L)).
  { destruct timeLimit; try discriminate; eexists; split; reflexivity. }
  destruct Hs as (L & -> & Hs).
  rewrite ticks_app.
  rewrite (ticks_expiry timeLimit L (useGameTimer.initial timeLimit) He)
    by (unfold useGameTimer.initial; rewrite He; exact Hs).
  rewrite (ticks_after_expiry timeLimit k _ He) by (cbn; lia).
  unfold useGameTimer.expiry_effect, useGameTimer.initial. rewrite He.
  cbn [negb andb useGameTimer.timeDisplay useGameTimer.elapsedRef snd].
  destruct (Z.leb_spec (seconds timeLimit) 0) as [Hle|_]; [lia|].
  cbn [app]. rewrite (seqZ_cons (seconds timeLimit)) by lia.
  rewrite Hs. f_equal. f_equal; lia.
Qed.

Lemma timer_keeps_calling_witness :
  (useGameTimer.run limit_30 (Z.to_nat (seconds limit_30) + 2)).2
  = seqZ (seconds limit_30) (Z.of_nat 2 + 1).
Proof. apply (timer_keeps_calling limit_30 2). reflexivity. Defined.

(** ** ResultScreen.accuracy *)

Lemma div_self s m e :
  div (S754_finite s m e) (S754_finite s m e) = of_Z 1.
Proof.
  cbn [div SFdiv]. unfold SFdiv_core_binary, Zdigits2.
  rewrite !Z.sub_diag.
  change (Z.min (fexp prec emax 0) 0) with (-53).
  change (0 - -53) with 53.
  rewrite Z.shiftl_mul_pow2 by lia.
  pose proof (Z.div_mul (2 ^ 53) (Z.pos m) ltac:(lia)) as Hq.
  pose proof (Z.mod_mul (2 ^ 53) (Z.pos m) ltac:(lia)) as Hr.
  rewrite (Z.mul_comm (2 ^ 53)) in Hq, Hr.
  unfold Z.div in Hq. unfold Z.modulo in Hr.
  destruct (Z.div_eucl (Z.pos m * 2 ^ 53) (Z.pos m)) as [q r].
  subst q r. rewrite xorb_nilpotent.
  unfold new_location. destruct (Z.even (Z.pos m)); reflexivity.
Qed.

(** X10: the accuracy at its ends: without a correct answer it is 0,
    also when nothing was answered at all (no division by zero), and with
    correct answers only it is 100. *)
Theorem accuracy_ends :
  (forall mistakes, ResultScreen.accuracy (of_Z 0) mistakes = Int 0)
  /\ (forall score,
        is_finite score = true -> ltb (of_Z 0) score = true ->
        ResultScreen.accuracy score (of_Z 0) = Int 100).
Proof.
  split.
  - intros mistakes. unfold ResultScreen.accuracy.
    destruct mistakes as [[]|[]| |[] m e]; reflexivity.
  - intros score Hf Hp. unfold ResultScreen.accuracy.
    destruct score as [[]|[]| |[] m e]; try discriminate.
    change (add (S754_finite false m e) (of_Z 0)) with (S754_finite false m e).
    change (ltb (of_Z 0) (S754_finite false m e)) with true. cbv iota.
    rewrite div_self. reflexivity.
Qed.

Lemma accuracy_ends_witness :
  ResultScreen.accuracy (of_Z 17) (of_Z 0) = Int 100.
Proof. apply (proj2 accuracy_ends (of_Z 17)); reflexivity. Defined.

(** ** The theme *)

(** X11: the stored theme reads back as the mode that stored it, whatever
    the system prefers; without a stored text (or with an empty one) the
    system's preference decides; and any other text selects the light
    mode. *)
Theorem theme_round_trip :
  (forall darkMode prefersDark,
      Theme.initial (Some (Theme.stored darkMode)) prefersDark = darkMode)
  /\ (forall prefersDark,
        Theme.initial None prefersDark = prefersDark
        /\ Theme.initial (Some "") prefersDark = prefersDark)
  /\ (forall saved prefersDark,
        saved <> "" -> saved <> "dark" ->
        Theme.initial (Some saved) prefersDark = false)
  /\ (forall darkMode,
        Theme.toggleDarkMode (Theme.toggleDarkMode darkMode) = darkMode).
Proof.
  split; [intros [] []; reflexivity|].
  split; [intros []; split; reflexivity|].
  split; [|intros []; reflexivity].
  intros saved prefersDark He Hd. unfold Theme.initial.
  destruct (String.eqb_spec saved ""); [contradiction|].
  destruct (String.eqb_spec saved "dark"); [contradiction|reflexivity].
Qed.

Lemma theme_round_trip_witness :
  Theme.initial (Some "light") true = false.
Proof.
  apply (proj1 (proj2 (proj2 theme_round_trip)) "light" true); discriminate.
Defined.

(** ** Judging the answers *)

Lemma target_present_iff (st : SymbolMatchGame.State) :
  target_present st = true
  <-> exists t, t ∈ SymbolMatchGame.targets st
                /\ t ∈ SymbolMatchGame.searchGroup st.
Proof.
  unfold target_present. rewrite existsb_exists. split.
  - intros (t & Hin & Hd). exists t. split.
    + apply list_elem_of_In, Hin.
    + apply bool_decide_eq_true in Hd. exact Hd.
  - intros (t & Hin & Hs). exists t. split.
    + apply list_elem_of_In, Hin.
    + apply bool_decide_eq_true. exact Hs.
Qed.

(** The first two symbols of the shuffle and the symbols after them. *)
Lemma shuffled_pool_split (shuffled : list Symbol) :
  shuffled ≡ₚ ALL_SYMBOLS ->
  exists a b rest,
    shuffled = a :: b :: rest /\ length rest = 13%nat
    /\ a <> b /\ (a ∉ rest) /\ (b ∉ rest) /\ NoDup rest.
Proof.
  intros Hp.
  assert (Hnd : NoDup shuffled) by (rewrite Hp; apply ALL_SYMBOLS_NoDup).
  pose proof (Permutation_length Hp) as Hlen.
  destruct shuffled as [|a [|b rest]]; try discriminate.
  exists a, b, rest. split; [reflexivity|].
  split; [cbn in Hlen; lia|].
  rewrite !NoDup_cons, !not_elem_of_cons in Hnd.
  destruct Hnd as ((Hab & Ha) & Hb & Hr). repeat split; assumption.
Qed.

(** X12: the match game judges by what the trial shows: in every generated
    trial isMatch says whether a target is in the search list, so the
    answer that agrees with the lists adds one to the score, the other
    answer adds one to the mistakes, and neither changes the trial. *)
Theorem match_answer_judged
    (rng : nat -> number) (st : SymbolMatchGame.State) (p : nat)
    (score mistakes : Z) :
  (forall n, random_value (rng n)) ->
  exists st' p',
    SymbolMatchGame.generateRound rng st p = Ok st' p'
    /\ SymbolMatchGame.isMatch st' = target_present st'
    /\ SymbolMatchGame.handleAnswer (target_present st') score mistakes st'
       = (score + 1, mistakes,
          {| SymbolMatchGame.round := SymbolMatchGame.round st';
             SymbolMatchGame.targets := SymbolMatchGame.targets st';
             SymbolMatchGame.searchGroup := SymbolMatchGame.searchGroup st';
             SymbolMatchGame.isMatch := SymbolMatchGame.isMatch st';
             SymbolMatchGame.feedback := Some correct |})
    /\ SymbolMatchGame.handleAnswer (negb (target_present st')) score
         mistakes st'
       = (score, mistakes + 1,
          {| SymbolMatchGame.round := SymbolMatchGame.round st';
             SymbolMatchGame.targets := SymbolMatchGame.targets st';
             SymbolMatchGame.searchGroup := SymbolMatchGame.searchGroup st';
             SymbolMatchGame.isMatch := SymbolMatchGame.isMatch st';
             SymbolMatchGame.feedback := Some incorrect |}).
Proof.
  intros Hr.
  destruct (match_generateRound_shape rng Hr st p)
    as (st' & p' & shuffled & Hg & Hp & Ht & Hb).
  exists st', p'. split; [exact Hg|].
  assert (Hnd : NoDup shuffled) by (rewrite Hp; apply ALL_SYMBOLS_NoDup).
  assert (Him : SymbolMatchGame.isMatch st' = target_present st').
  { destruct Hb as [(Hm & t & Htt & Hsg)|(Hm & Hsg)]; rewrite Hm.
    - symmetry. apply target_present_iff. exists t. rewrite Ht, Hsg.
      split; [exact Htt|left].
    - symmetry. apply not_true_is_false. rewrite target_present_iff.
      intros (t & Htt & Hin). rewrite Ht in Htt. rewrite Hsg in Hin.
      exact (slice_disjoint 2 7 shuffled t Hnd Htt Hin). }
  split; [exact Him|].
  unfold SymbolMatchGame.handleAnswer. rewrite <- Him.
  destruct (SymbolMatchGame.isMatch st'); split; reflexivity.
Qed.

Lemma match_answer_judged_witness :
  exists st' p',
    SymbolMatchGame.generateRound (rng_const three_quarters) SymbolMatchGame.initial
      0%nat = Ok st' p'
    /\ SymbolMatchGame.isMatch st' = target_present st'.
Proof.
  destruct (match_answer_judged (rng_const three_quarters) SymbolMatchGame.initial
              0%nat 0 0) as (st' & p' & Hg & Him & _).
  - intros n; split; [|split]; reflexivity.
  - exists st', p'. split; [exact Hg|exact Him].
Defined.

(** X13: the search list of every generated match trial has exactly five
    symbols, and the number of targets in it is one when isMatch is true
    (never both targets) and none when it is false. *)
Theorem match_trial_counts
    (rng : nat -> number) (st : SymbolMatchGame.State) (p : nat) :
  (forall n, random_value (rng n)) ->
  exists st' p',
    SymbolMatchGame.generateRound rng st p = Ok st' p'
    /\ length (SymbolMatchGame.searchGroup st') = 5%nat
    /\ length (filter (fun t => t ∈ SymbolMatchGame.searchGroup st')
                 (SymbolMatchGame.targets st'))
       = if SymbolMatchGame.isMatch st' then 1%nat else 0%nat.
Proof.
  intros Hr.
  destruct (match_generateRound_shape rng Hr st p)
    as (st' & p' & shuffled & Hg & Hp & Ht & Hb).
  exists st', p'. split; [exact Hg|].
  destruct (shuffled_pool_split shuffled Hp)
    as (a & b & rest & -> & Hlen & Hab & Ha & Hb' & Hnd).
  rewrite Ht. cbn [take]. rewrite take_0.
  assert (Hsub : forall n x, x ∈ take n rest -> x ∈ rest)
    by (intros n x Hx; eapply subseteq_take, Hx).
  destruct Hb as [(Hm & t & Htt & Hsg)|(Hm & Hsg)]; rewrite Hm.
  - split.
    + rewrite (Permutation_length Hsg). unfold slice.
      cbn [drop length Nat.sub]. rewrite drop_0, length_take. lia.
    + unfold slice in Hsg. cbn [drop Nat.sub] in Hsg. rewrite drop_0 in Hsg.
      assert (Hin : forall x, x ∈ SymbolMatchGame.searchGroup st'
                              <-> x = t \/ x ∈ take 4 rest).
      { intros x. rewrite Hsg, elem_of_cons. reflexivity. }
      cbn [take] in Htt. rewrite ?take_0, !elem_of_cons, elem_of_nil in Htt.
      rewrite !filter_cons, filter_nil.
      destruct Htt as [->|[->|[]]].
      * destruct (decide (a ∈ SymbolMatchGame.searchGroup st')) as [_|Hn];
          [|exfalso; apply Hn, Hin; left; reflexivity].
        destruct (decide (b ∈ SymbolMatchGame.searchGroup st')) as [Hy|_];
          [|reflexivity].
        apply Hin in Hy as [Hy|Hy]; [congruence|].
        exfalso. exact (Hb' (Hsub _ _ Hy)).
      * destruct (decide (a ∈ SymbolMatchGame.searchGroup st')) as [Hy|_].
        { apply Hin in Hy as [Hy|Hy]; [congruence|].
          exfalso. exact (Ha (Hsub _ _ Hy)). }
        destruct (decide (b ∈ SymbolMatchGame.searchGroup st')) as [_|Hn];
          [reflexivity|].
        exfalso; apply Hn, Hin; left; reflexivity.
  - rewrite Hsg. unfold slice. cbn [drop Nat.sub]. rewrite drop_0. split.
    + rewrite length_take. lia.
    + rewrite !filter_cons, filter_nil.
      destruct (decide (a ∈ take 5 rest)) as [Hy|_];
        [exfalso; exact (Ha (Hsub _ _ Hy))|].
      destruct (decide (b ∈ take 5 rest)) as [Hy|_];
        [exfalso; exact (Hb' (Hsub _ _ Hy))|].
      reflexivity.
Qed.

Lemma match_trial_counts_witness :
  exists st' p',
    SymbolMatchGame.generateRound (rng_const three_quarters) SymbolMatchGame.initial
      0%nat = Ok st' p'
    /\ length (SymbolMatchGame.searchGroup st') = 5%nat
    /\ length (filter (fun t => t ∈ SymbolMatchGame.searchGroup st')
                 (SymbolMatchGame.targets st'))
       = if SymbolMatchGame.isMatch st' then 1%nat else 0%nat.
Proof.
  apply (match_trial_counts (rng_const three_quarters) SymbolMatchGame.initial 0%nat).
  intros n; split; [|split]; reflexivity.
Defined.

(** ** Answering a coding trial *)

(** The mapping of a trial: five distinct symbols under the keys 1..5. *)
Lemma five_symbols_map (s1 s2 s3 s4 s5 : Symbol) (m : gmap Z Symbol) :
  NoDup [s1; s2; s3; s4; s5] ->
  m = <[5 := s5]> (<[4 := s4]> (<[3 := s3]> (<[2 := s2]> (<[1 := s1]> ∅)))) ->
  (forall i, is_Some (m !! i) <-> 1 <= i <= 5)
  /\ (forall i j s, m !! i = Some s -> m !! j = Some s -> i = j).
Proof.
  intros Hnd ->.
  rewrite !NoDup_cons, !not_elem_of_cons in Hnd.
  split.
  - intros i. unfold is_Some. split.
    + intros (s & Hs). rewrite !lookup_insert_Some, lookup_empty in Hs.
      repeat match goal with
             | H : _ \/ _ |- _ => destruct H
             | H : _ /\ _ |- _ => destruct H
             end; subst; try lia; discriminate.
    + intros Hi.
      assert (i = 1 \/ i = 2 \/ i = 3 \/ i = 4 \/ i = 5)
        as [-> | [-> | [-> | [-> | ->]]]] by lia;
        eexists; reflexivity.
  - intros i j s. rewrite !lookup_insert_Some, !lookup_empty.
    intros Hi Hj. destruct_and!.
    repeat match goal with
           | H : _ \/ _ |- _ => destruct H
           | H : _ /\ _ |- _ => destruct H
           end; subst; congruence.
Qed.

(** X14: every generated coding trial can be answered, and is judged by
    the symbols it shows: the target digit is one of 1..5 and one of the
    buttons, every button and every digit of the key has a symbol, and a
    button is scored as correct exactly when its symbol is the symbol
    that the key gives for the target digit. *)
Theorem coding_trial_answerable
    (rng : nat -> number) (fuel : nat) (st st' : CodingGame.State) (p p' : nat) :
  (forall n, random_value (rng n)) ->
  CodingGame.generateRound rng fuel st p = Ok st' p' ->
  1 <= CodingGame.currentNumber st' <= 5
  /\ CodingGame.currentNumber st' ∈ CodingGame.buttonOrder st'
  /\ (forall num, num ∈ CodingGame.buttonOrder st' <-> 1 <= num <= 5)
  /\ (forall num, 1 <= num <= 5 -> is_Some (CodingGame.map st' !! num))
  /\ (forall num score mistakes,
        num ∈ CodingGame.buttonOrder st' ->
        (CodingGame.map st' !! num
         = CodingGame.map st' !! CodingGame.currentNumber st'
         <-> CodingGame.handleAnswer num score mistakes st'
             = (score + 1, mistakes,
                {| CodingGame.round := CodingGame.round st';
                   CodingGame.map := CodingGame.map st';
                   CodingGame.buttonOrder := CodingGame.buttonOrder st';
                   CodingGame.currentNumber := CodingGame.currentNumber st';
                   CodingGame.feedback := Some correct |}))).
Proof.
  intros Hr H.
  destruct (coding_generateRound_shape rng Hr fuel st p st' p' H)
    as (s1 & s2 & s3 & s4 & s5 & rest & Hp & Hm & Hb & Hc).
  assert (Hnd : NoDup [s1; s2; s3; s4; s5]).
  { assert (Hall : NoDup (s1 :: s2 :: s3 :: s4 :: s5 :: rest))
      by (rewrite Hp; apply ALL_SYMBOLS_NoDup).
    change (NoDup ([s1; s2; s3; s4; s5] ++ rest)) in Hall.
    apply NoDup_app in Hall as (Hfive & _). exact Hfive. }
  destruct (five_symbols_map s1 s2 s3 s4 s5 _ Hnd Hm) as [Hdom Hinj].
  assert (Hbtn : forall num, num ∈ CodingGame.buttonOrder st' <-> 1 <= num <= 5).
  { intros num. rewrite Hb, !elem_of_cons, elem_of_nil. lia. }
  split; [exact Hc|]. split; [apply Hbtn, Hc|]. split; [exact Hbtn|].
  split; [intros num Hn; apply Hdom, Hn|].
  intros num score mistakes Hin. unfold CodingGame.handleAnswer. split.
  - intros Heq.
    destruct (proj2 (Hdom num) (proj1 (Hbtn num) Hin)) as (s & Hs).
    rewrite Hs in Heq. symmetry in Heq.
    rewrite (Hinj _ _ _ Hs Heq), Z.eqb_refl. reflexivity.
  - destruct (Z.eqb_spec num (CodingGame.currentNumber st')) as [->|Hne].
    + reflexivity.
    + intros Habs. injection Habs as Habs _. lia.
Qed.

Lemma coding_trial_answerable_witness :
  exists st' p',
    CodingGame.generateRound rng_cycle 3%nat CodingGame.initial 0%nat
    = Ok st' p'
    /\ 1 <= CodingGame.currentNumber st' <= 5
    /\ CodingGame.currentNumber st' ∈ CodingGame.buttonOrder st'.
Proof.
  eexists _, _. split; [vm_compute; reflexivity|].
  refine (let H := coding_trial_answerable rng_cycle 3%nat CodingGame.initial
                     _ 0%nat _ rng_cycle_range _ in
          conj (proj1 H) (proj1 (proj2 H))).
  vm_compute; reflexivity.
Defined.

(** X15: the do-while loop has no bound of its own: while the floor of the
    binary64 product Math.random() * 5 keeps being currentNumber - 1, so
    that the digit drawn is currentNumber, no number of draws ends it, and
    generateRound does not return. *)
Theorem generateRound_needs_other_digit
    (rng : nat -> number) (fuel : nat) (st : CodingGame.State) (p : nat) :
  (forall n, random_value (rng n)) ->
  (forall n, Math_floor (mul (rng n) (of_Z 5))
             = Int (CodingGame.currentNumber st - 1)) ->
  CodingGame.generateRound rng fuel st p = OutOfFuel.
Proof.
  intros Hr Hsame. unfold CodingGame.generateRound.
  destruct (shuffleArray_ok rng Hr ALL_SYMBOLS p
              (short_array ALL_SYMBOLS ltac:(simpl; lia)))
    as (shuffled & Hs & Hp).
  rewrite (bind_Ok _ _ _ _ _ Hs).
  destruct (set_loop_five shuffled (p + (length ALL_SYMBOLS - 1))%nat)
    as (s1 & s2 & s3 & s4 & s5 & rest & -> & Hl).
  { rewrite (Permutation_length Hp); reflexivity. }
  rewrite (bind_Ok _ _ _ _ _ Hl).
  destruct (shuffleArray_ok rng Hr [1; 2; 3; 4; 5]
              (p + (length ALL_SYMBOLS - 1))%nat
              (short_array [1; 2; 3; 4; 5] ltac:(simpl; lia)))
    as (order & Ho & Hpo).
  rewrite (bind_Ok _ _ _ _ _ Ho).
  unfold bind at 1.
  enough (Hd : forall q, CodingGame.draw_nextNum rng fuel
                           (CodingGame.currentNumber st) q = OutOfFuel)
    by (rewrite Hd; reflexivity).
  induction fuel as [|fuel IH]; intros q; [reflexivity|].
  cbn [CodingGame.draw_nextNum].
  rewrite (bind_Ok _ _ _ _ _ (random_floor_Ok rng 5 q _ (Hsame q))).
  replace (CodingGame.currentNumber st - 1 + 1)
    with (CodingGame.currentNumber st) by lia.
  rewrite Z.eqb_refl. apply IH.
Qed.

Lemma generateRound_needs_other_digit_witness :
  CodingGame.generateRound (rng_const one_tenth) 1000%nat CodingGame.initial
    0%nat = OutOfFuel.
Proof.
  apply (generateRound_needs_other_digit (rng_const one_tenth) 1000%nat
           CodingGame.initial 0%nat).
  - intros n; split; [|split]; reflexivity.
  - intros n. reflexivity.
Defined.


(** ** Every arrangement can come out of shuffleArray *)

Lemma bind_congr {A B} (c1 c2 : Rand A) (k1 k2 : A -> Rand B) p :
  c1 p = c2 p ->
  (forall a p', c1 p = Ok a p' -> k1 a p' = k2 a p') ->
  bind c1 k1 p = bind c2 k2 p.
Proof.
  intros Hc Hk. unfold bind. rewrite <- Hc.
  destruct (c1 p) as [a p'| |]; [apply Hk|..]; reflexivity.
Qed.

Lemma random_floor_ext (rng1 rng2 : nat -> number) n p :
  rng1 p = rng2 p -> random_floor rng1 n p = random_floor rng2 n p.
Proof.
  intros H. unfold random_floor, bind, Math_random. rewrite H. reflexivity.
Qed.

Lemma swap_pos {T} (l l' : list T) i j p p' :
  swap l i j p = Ok l' p' -> p' = p.
Proof.
  unfold swap, bind, read, ret.
  repeat match goal with
         | |- context [if ?b then _ else _] => destruct b; try discriminate
         | |- context [match ?o with Some _ => _ | None => _ end] =>
             destruct o; try discriminate
         end.
  intros [= _ <-]. reflexivity.
Qed.

(** The loop reads the oracle at its [i] draws only. *)
Lemma shuffle_loop_ext {T} (rng1 rng2 : nat -> number) (i : nat)
    (l : list T) p :
  (forall q, (p <= q < p + i)%nat -> rng1 q = rng2 q) ->
  shuffle_loop rng1 i l p = shuffle_loop rng2 i l p.
Proof.
  revert l p; induction i as [|i IH]; intros l p Heq; [reflexivity|].
  cbn [shuffle_loop].
  apply bind_congr; [apply random_floor_ext, Heq; lia|].
  intros j p' Hj. apply random_floor_inv in Hj as [-> _].
  apply bind_congr; [reflexivity|].
  intros l' p' Hs. apply swap_pos in Hs as ->.
  apply IH. intros q Hq. apply Heq. lia.
Qed.

(** Two arrangements of the same elements that agree after their first
    element are equal. *)
Lemma Permutation_same_tail {T} (l1 l2 : list T) :
  l1 ≡ₚ l2 -> drop 1 l1 = drop 1 l2 -> l1 = l2.
Proof.
  intros Hp Hd. destruct l1 as [|x l1], l2 as [|y l2].
  - reflexivity.
  - apply Permutation_nil_l in Hp. discriminate.
  - apply Permutation_nil_r in Hp. discriminate.
  - cbn in Hd. rewrite !drop_0 in Hd. subst l2.
    apply (inj (.:: l1)) in Hp. subst y. reflexivity.
Qed.

Lemma zero_random_value : random_value (of_Z 0).
Proof. split; [|split]; reflexivity. Qed.

(** Entered at index [i], the loop can produce every arrangement of the
    array that leaves the elements after index [i] in place. *)
Lemma shuffle_loop_reaches {T} (i : nat) (l target : list T) p :
  Z.of_nat (length l) <= max_array_length ->
  (i < length l)%nat \/ i = 0%nat ->
  target ≡ₚ l -> drop (S i) target = drop (S i) l ->
  exists rng, (forall n, random_value (rng n))
              /\ shuffle_loop rng i l p = Ok target (p + i)%nat.
Proof.
  revert l p; induction i as [|i IH]; intros l p Hmax Hi Hp Hd.
  - exists (rng_const (of_Z 0)). split; [intros n; exact zero_random_value|].
    cbn. unfold ret. rewrite Nat.add_0_r.
    rewrite (Permutation_same_tail target l Hp Hd). reflexivity.
  - destruct Hi as [Hi|Hi]; [|discriminate].
    pose proof (Permutation_length Hp) as Hlen.
    destruct (lookup_lt_is_Some_2 target (S i) ltac:(lia)) as [y Hy].
    destruct (lookup_lt_is_Some_2 l (S i) Hi) as [y0 Hy0].
    assert (Htake : take (S (S i)) target ≡ₚ take (S (S i)) l).
    { apply (Permutation_app_inv_r (drop (S (S i)) l)).
      rewrite <- Hd at 1. rewrite !take_drop. exact Hp. }
    assert (Hj : exists j, (j < S (S i))%nat /\ l !! j = Some y).
    { assert (Hin : y ∈ take (S (S i)) l).
      { rewrite <- Htake. apply list_elem_of_lookup. exists (S i).
        rewrite lookup_take_lt by lia. exact Hy. }
      apply list_elem_of_lookup in Hin as (j & Hj).
      exists j. split.
      - apply lookup_lt_Some in Hj. rewrite length_take in Hj. lia.
      - rewrite lookup_take_lt in Hj; [exact Hj|].
        apply lookup_lt_Some in Hj. rewrite length_take in Hj. lia. }
    destruct Hj as (j & Hjlt & Hj).
    set (l1 := <[j := y0]> (<[S i := y]> l)).
    assert (Hp1 : l1 ≡ₚ l).
    { subst l1. apply Permutation_insert_swap; [exact Hy0|exact Hj]. }
    assert (Hl1 : l1 !! S i = Some y).
    { subst l1. destruct (decide (j = S i)) as [->|Hne].
      - rewrite list_lookup_insert_eq by (rewrite length_insert; exact Hi).
        congruence.
      - rewrite list_lookup_insert_ne by exact Hne.
        apply list_lookup_insert_eq, Hi. }
    assert (Hd1 : drop (S i) target = drop (S i) l1).
    { rewrite (drop_S target y (S i) Hy), (drop_S l1 y (S i) Hl1), Hd.
      subst l1. rewrite !drop_insert_lt by lia. reflexivity. }
    destruct (IH l1 (S p)) as (rng' & Hr' & Hloop).
    { rewrite (Permutation_length Hp1). exact Hmax. }
    { left. rewrite (Permutation_length Hp1). lia. }
    { rewrite Hp1. exact Hp. }
    { exact Hd1. }
    destruct (draw_for_index (Z.of_nat j) (Z.of_nat (S i) + 1))
      as [Hrr Hfl]; [lia| |].
    { unfold max_array_length in Hmax.
      assert (4294967295 < 2 ^ 32) by reflexivity. lia. }
    set (r := draw_for (Z.of_nat j) (Z.of_nat (S i) + 1)) in *.
    set (rng := fun n => if (n =? p)%nat then r else rng' n).
    assert (Hrp : rng p = r) by (subst rng; cbv beta; rewrite Nat.eqb_refl; reflexivity).
    exists rng. split.
    + intros n. subst rng. cbv beta. destruct (n =? p)%nat; [exact Hrr|apply Hr'].
    + cbn [shuffle_loop].
      rewrite (bind_Ok _ _ _ _ _
                 (random_floor_Ok rng (Z.of_nat (S i) + 1) p (Z.of_nat j)
                    ltac:(rewrite Hrp; exact Hfl))).
      assert (Hs : swap l (S i) (Z.of_nat j) (S p) = Ok l1 (S p)).
      { unfold swap.
        rewrite (bind_Ok _ _ _ _ _ (read_Some l (Z.of_nat j) y (S p) ltac:(lia)
                   ltac:(rewrite Nat2Z.id; exact Hj))).
        rewrite (bind_Ok _ _ _ _ _ (read_Some l (Z.of_nat (S i)) y0 (S p) ltac:(lia)
                   ltac:(rewrite Nat2Z.id; exact Hy0))).
        unfold ret. rewrite Nat2Z.id. reflexivity. }
      rewrite (bind_Ok _ _ _ _ _ Hs).
      rewrite (shuffle_loop_ext rng rng' i l1 (S p)).
      * rewrite Hloop. f_equal. lia.
      * intros q Hq. subst rng. cbv beta.
        destruct (Nat.eqb_spec q p); [lia|reflexivity].
Qed.

Lemma shuffleArray_reaches {T} (array target : list T) (p : nat) :
  Z.of_nat (length array) <= max_array_length ->
  target ≡ₚ array ->
  exists rng,
    (forall n, random_value (rng n))
    /\ shuffleArray rng array p = Ok target (p + (length array - 1))%nat.
Proof.
  intros Hmax Hp. unfold shuffleArray. apply shuffle_loop_reaches.
  - exact Hmax.
  - destruct array; cbn; [right; reflexivity|left; lia].
  - exact Hp.
  - pose proof (Permutation_length Hp) as Hlen.
    rewrite !drop_ge by lia. reflexivity.
Qed.

(** X16: shuffleArray can return every arrangement of its argument: for
    each permutation of an array (of at most 2^32 - 1 elements) there are
    values of Math.random, binary64 numbers of [0, 1), with which the call
    returns exactly that permutation, every index being the floor of the
    binary64 product that the code computes. *)
Theorem shuffleArray_reaches_every_permutation
    {T} (array target : list T) (p : nat) :
  Z.of_nat (length array) <= max_array_length ->
  target ≡ₚ array ->
  exists rng,
    (forall n, random_value (rng n))
    /\ shuffleArray rng array p = Ok target (p + (length array - 1))%nat.
Proof.
  intros Hmax Hp. unfold shuffleArray. apply shuffle_loop_reaches.
  - exact Hmax.
  - destruct array; cbn; [right; reflexivity|left; lia].
  - exact Hp.
  - pose proof (Permutation_length Hp) as Hlen.
    rewrite !drop_ge by lia. reflexivity.
Qed.

Lemma shuffleArray_reaches_every_permutation_witness :
  exists rng,
    (forall n, random_value (rng n))
    /\ shuffleArray rng [10; 20; 30; 40] 0%nat = Ok [30; 10; 40; 20] 3%nat.
Proof.
  apply (shuffleArray_reaches_every_permutation
           [10; 20; 30; 40] [30; 10; 40; 20] 0%nat).
  - unfold max_array_length. simpl. lia.
  - apply (bool_decide_eq_true_1 ([30; 10; 40; 20] ≡ₚ [10; 20; 30; 40])).
    vm_compute. reflexivity.
Defined.

(** ** Every trial allowed by the invariants can be generated *)

Lemma rng_splice_range (k : nat) (rng1 rng2 : nat -> number) :
  (forall n, random_value (rng1 n)) -> (forall n, random_value (rng2 n)) ->
  forall n, random_value (rng_splice k rng1 rng2 n).
Proof.
  intros H1 H2 n. unfold rng_splice. destruct (n <? k)%nat; [apply H1|apply H2].
Qed.

Lemma rng_splice_lt (k : nat) (rng1 rng2 : nat -> number) n :
  (n < k)%nat -> rng_splice k rng1 rng2 n = rng1 n.
Proof.
  intros H. unfold rng_splice. apply Nat.ltb_lt in H. rewrite H. reflexivity.
Qed.

Lemma rng_splice_ge (k : nat) (rng1 rng2 : nat -> number) n :
  (k <= n)%nat -> rng_splice k rng1 rng2 n = rng2 n.
Proof.
  intros H. unfold rng_splice. apply Nat.ltb_ge in H. rewrite H. reflexivity.
Qed.

Lemma shuffleArray_splice_l {T} (k : nat) (rng1 rng2 : nat -> number)
    (l : list T) p :
  (p + (length l - 1) <= k)%nat ->
  shuffleArray (rng_splice k rng1 rng2) l p = shuffleArray rng1 l p.
Proof.
  intros Hk. unfold shuffleArray. apply shuffle_loop_ext.
  intros q Hq. apply rng_splice_lt. lia.
Qed.

Lemma shuffleArray_splice_r {T} (k : nat) (rng1 rng2 : nat -> number)
    (l : list T) p :
  (k <= p)%nat ->
  shuffleArray (rng_splice k rng1 rng2) l p = shuffleArray rng2 l p.
Proof.
  intros Hk. unfold shuffleArray. apply shuffle_loop_ext.
  intros q Hq. apply rng_splice_ge. lia.
Qed.

Lemma rng_const_range (r : number) :
  random_value r -> forall n : nat, random_value (rng_const r n).
Proof. intros H n. exact H. Qed.

Lemma quarters_random_value :
  random_value one_quarter /\ random_value three_quarters.
Proof. split; (split; [|split]; reflexivity). Qed.

(** X17: the match game can generate every trial that its invariants
    allow: for every arrangement of the 15 symbols there are values of
    Math.random (binary64 numbers of [0, 1)) that give the trial without a
    match built from it, and for each of its two targets and every order
    of that target with the next four symbols, values that give this
    trial with a match. *)
Theorem match_trial_reachable
    (shuffled group : list Symbol) (t : Symbol)
    (st : SymbolMatchGame.State) (p : nat) :
  shuffled ≡ₚ ALL_SYMBOLS ->
  t ∈ slice 0 2 shuffled ->
  group ≡ₚ t :: slice 2 6 shuffled ->
  (exists rng p',
      (forall n, random_value (rng n))
      /\ SymbolMatchGame.generateRound rng st p
         = Ok {| SymbolMatchGame.round := SymbolMatchGame.round st;
                 SymbolMatchGame.targets := slice 0 2 shuffled;
                 SymbolMatchGame.searchGroup := slice 2 7 shuffled;
                 SymbolMatchGame.isMatch := false;
                 SymbolMatchGame.feedback := None |} p')
  /\ (exists rng p',
        (forall n, random_value (rng n))
        /\ SymbolMatchGame.generateRound rng st p
           = Ok {| SymbolMatchGame.round := SymbolMatchGame.round st;
                   SymbolMatchGame.targets := slice 0 2 shuffled;
                   SymbolMatchGame.searchGroup := group;
                   SymbolMatchGame.isMatch := true;
                   SymbolMatchGame.feedback := None |} p').
Proof.
  intros Hp Ht Hg.
  destruct (shuffleArray_reaches ALL_SYMBOLS shuffled p
              (short_array ALL_SYMBOLS ltac:(simpl; lia)) Hp)
    as (rng1 & Hr1 & Hs1).
  set (p1 := (p + (length ALL_SYMBOLS - 1))%nat) in *.
  destruct quarters_random_value as [Hq1 Hq3].
  split.
  - exists (rng_splice p1 rng1 (rng_const one_quarter)). eexists. split.
    + apply rng_splice_range; [exact Hr1|]. apply rng_const_range, Hq1.
    + unfold SymbolMatchGame.generateRound.
      rewrite (bind_Ok _ _ _ _ _
                 (eq_trans (shuffleArray_splice_l p1 rng1 _ ALL_SYMBOLS p
                              (Nat.le_refl _)) Hs1)).
      unfold bind at 1, Math_random at 1.
      rewrite (rng_splice_ge p1 rng1 _ p1 (Nat.le_refl _)).
      reflexivity.
  - apply list_elem_of_lookup in Ht as (i & Hi).
    assert (Hi2 : (i < 2)%nat).
    { apply lookup_lt_Some in Hi. unfold slice in Hi.
      rewrite length_take in Hi. lia. }
    destruct (draw_for_index (Z.of_nat i) 2 ltac:(lia) ltac:(lia))
      as [Hrk Hfl].
    set (rk := draw_for (Z.of_nat i) 2) in *.
    destruct (shuffleArray_reaches (t :: slice 2 6 shuffled) group
                (S (S p1))
                (short_array (t :: slice 2 6 shuffled)
                   ltac:(cbn [length]; unfold slice; rewrite length_take; lia))
                Hg) as (rng2 & Hr2 & Hs2).
    exists (rng_splice p1 rng1
              (rng_splice (S p1) (rng_const three_quarters)
                 (rng_splice (S (S p1)) (rng_const rk) rng2))).
    eexists. split.
    + apply rng_splice_range; [exact Hr1|].
      apply rng_splice_range; [apply rng_const_range, Hq3|].
      apply rng_splice_range; [apply rng_const_range, Hrk|exact Hr2].
    + unfold SymbolMatchGame.generateRound.
      rewrite (bind_Ok _ _ _ _ _
                 (eq_trans (shuffleArray_splice_l p1 rng1 _ ALL_SYMBOLS p
                              (Nat.le_refl _)) Hs1)).
      unfold bind at 1, Math_random at 1.
      rewrite (rng_splice_ge p1 rng1 _ p1 (Nat.le_refl _)).
      rewrite (rng_splice_lt (S p1) _ _ p1 (Nat.lt_succ_diag_r _)).
      change (gtb (rng_const three_quarters p1) one_half) with true. cbv iota.
      match goal with
      | |- bind (random_floor ?g 2) _ _ = _ =>
          rewrite (bind_Ok _ _ _ _ _
                     (random_floor_Ok g 2 (S p1) (Z.of_nat i)
                        ltac:(rewrite (rng_splice_ge p1 rng1 _ (S p1)
                                         (Nat.le_succ_diag_r _)),
                                (rng_splice_ge (S p1) _ _ (S p1) (Nat.le_refl _)),
                                (rng_splice_lt (S (S p1)) _ _ (S p1)
                                   (Nat.lt_succ_diag_r _));
                              exact Hfl)))
      end.
      rewrite (bind_Ok _ _ _ _ _
                 (read_Some (slice 0 2 shuffled) (Z.of_nat i) t (S (S p1))
                    ltac:(lia) ltac:(rewrite Nat2Z.id; exact Hi))).
      rewrite (bind_Ok _ _ _ _ _
                 (eq_trans (shuffleArray_splice_r p1 rng1 _ _ (S (S p1))
                              ltac:(lia))
                    (eq_trans (shuffleArray_splice_r (S p1) _ _ _ (S (S p1))
                                 ltac:(lia))
                       (eq_trans (shuffleArray_splice_r (S (S p1)) _ _ _
                                    (S (S p1)) ltac:(lia)) Hs2)))).
      reflexivity.
Qed.

Lemma match_trial_reachable_witness :
  exists rng p',
    (forall n, random_value (rng n))
    /\ SymbolMatchGame.generateRound rng SymbolMatchGame.initial 0%nat
       = Ok {| SymbolMatchGame.round := 0;
               SymbolMatchGame.targets := slice 0 2 ALL_SYMBOLS;
               SymbolMatchGame.searchGroup :=
                 Circle :: slice 2 6 ALL_SYMBOLS;
               SymbolMatchGame.isMatch := true;
               SymbolMatchGame.feedback := None |} p'.
Proof.
  apply (proj2 (match_trial_reachable ALL_SYMBOLS
                  (Circle :: slice 2 6 ALL_SYMBOLS) Circle
                  SymbolMatchGame.initial 0%nat
                  ltac:(reflexivity)
                  ltac:(apply (bool_decide_eq_true_1
                                 (Circle ∈ slice 0 2 ALL_SYMBOLS));
                        vm_compute; reflexivity)
                  ltac:(reflexivity))).
Defined.

(** X18: the coding game can generate every trial that its invariants
    allow: for every arrangement of the 15 symbols, every order of the five
    buttons and every digit of 1..5 other than currentNumber there are
    values of Math.random (binary64 numbers of [0, 1)) with which
    generateRound returns, after a single draw of the do-while loop, the
    trial whose key gives the digits 1..5 the first five symbols, with
    that button order and that target digit. *)
Theorem coding_trial_reachable
    (shuffled : list Symbol) (order : list Z) (d : Z) (fuel : nat)
    (st : CodingGame.State) (p : nat) :
  shuffled ≡ₚ ALL_SYMBOLS ->
  order ≡ₚ [1; 2; 3; 4; 5] ->
  1 <= d <= 5 ->
  d <> CodingGame.currentNumber st ->
  exists rng p' newMap,
    (forall n, random_value (rng n))
    /\ CodingGame.generateRound rng (S fuel) st p
       = Ok {| CodingGame.round := CodingGame.round st;
               CodingGame.map := newMap;
               CodingGame.buttonOrder := order;
               CodingGame.currentNumber := d;
               CodingGame.feedback := None |} p'
    /\ (forall i, 1 <= i <= 5 -> newMap !! i = shuffled !! Z.to_nat (i - 1)).
Proof.
  intros Hp Ho Hd Hne.
  destruct (shuffleArray_reaches ALL_SYMBOLS shuffled p
              (short_array ALL_SYMBOLS ltac:(simpl; lia)) Hp)
    as (rng1 & Hr1 & Hs1).
  set (p1 := (p + (length ALL_SYMBOLS - 1))%nat) in *.
  destruct (set_loop_five shuffled p1) as (s1 & s2 & s3 & s4 & s5 & rest & Hsh & Hl).
  { rewrite (Permutation_length Hp). reflexivity. }
  destruct (shuffleArray_reaches [1; 2; 3; 4; 5] order p1
              (short_array [1; 2; 3; 4; 5] ltac:(simpl; lia)) Ho)
    as (rng2 & Hr2 & Hs2).
  set (p2 := (p1 + (length [1; 2; 3; 4; 5] - 1))%nat) in *.
  assert (Hp12 : (p1 <= p2)%nat) by (subst p2; lia).
  destruct (draw_for_index (d - 1) 5 ltac:(lia) ltac:(lia)) as [Hrd Hfl].
  set (rd := draw_for (d - 1) 5) in *.
  exists (rng_splice p1 rng1 (rng_splice p2 rng2 (rng_const rd))).
  eexists. eexists. split; [|split].
  - apply rng_splice_range; [exact Hr1|].
    apply rng_splice_range; [exact Hr2|apply rng_const_range, Hrd].
  - unfold CodingGame.generateRound.
    rewrite (bind_Ok _ _ _ _ _
               (eq_trans (shuffleArray_splice_l p1 rng1 _ ALL_SYMBOLS p
                            (Nat.le_refl _)) Hs1)).
    rewrite (bind_Ok _ _ _ _ _ Hl).
    rewrite (bind_Ok _ _ _ _ _
               (eq_trans (shuffleArray_splice_r p1 rng1 _ _ p1 (Nat.le_refl _))
                  (eq_trans (shuffleArray_splice_l p2 rng2 _ [1; 2; 3; 4; 5] p1
                               (Nat.le_refl _)) Hs2))).
    unfold bind at 1. cbn [CodingGame.draw_nextNum].
    match goal with
    | |- context [bind (random_floor ?g 5) _ _] =>
        rewrite (bind_Ok _ _ _ _ _
                   (random_floor_Ok g 5 p2 (d - 1)
                      ltac:(rewrite (rng_splice_ge p1 rng1 _ p2 Hp12),
                              (rng_splice_ge p2 rng2 _ p2 (Nat.le_refl _));
                            exact Hfl)))
    end.
    replace (d - 1 + 1) with d by lia.
    destruct (Z.eqb_spec d (CodingGame.currentNumber st)); [contradiction|].
    reflexivity.
  - intros i Hi. rewrite Hsh.
    assert (i = 1 \/ i = 2 \/ i = 3 \/ i = 4 \/ i = 5)
      as [-> | [-> | [-> | [-> | ->]]]] by lia; reflexivity.
Qed.

Lemma coding_trial_reachable_witness :
  exists rng p' newMap,
    (forall n, random_value (rng n))
    /\ CodingGame.generateRound rng 1%nat CodingGame.initial 0%nat
       = Ok {| CodingGame.round := 0;
               CodingGame.map := newMap;
               CodingGame.buttonOrder := [5; 4; 3; 2; 1];
               CodingGame.currentNumber := 3;
               CodingGame.feedback := None |} p'
    /\ (forall i, 1 <= i <= 5 -> newMap !! i = ALL_SYMBOLS !! Z.to_nat (i - 1)).
Proof.
  apply (coding_trial_reachable ALL_SYMBOLS [5; 4; 3; 2; 1] 3 0%nat
           CodingGame.initial 0%nat).
  - reflexivity.
  - apply (bool_decide_eq_true_1 ([5; 4; 3; 2; 1] ≡ₚ [1; 2; 3; 4; 5])).
    vm_compute. reflexivity.
  - lia.
  - discriminate.
Defined.

(** ** The countdown and the threshold of endGame *)

(** The calls that a countdown has made after [n] ticks. *)
Lemma run_calls_countdown (timeLimit : TimeLimit) (n : nat) :
  is_endless timeLimit = false ->
  (useGameTimer.run timeLimit n).2
  = if Z.of_nat n <? seconds timeLimit then []
    else seqZ (seconds timeLimit) (Z.of_nat n - seconds timeLimit + 1).
Proof.
  intros He. unfold useGameTimer.run.
  assert (Hs : exists L, Z.to_nat (seconds timeLimit) = S L
                         /\ seconds timeLimit = Z.of_nat (S L)).
  { destruct timeLimit; try discriminate; eexists; split; reflexivity. }
  destruct Hs as (L & HL & Hs).
  assert (Hinit : useGameTimer.expiry_effect timeLimit
                    (useGameTimer.initial timeLimit) = []).
  { unfold useGameTimer.expiry_effect, useGameTimer.initial. rewrite He.
    cbn [negb andb useGameTimer.timeDisplay].
    destruct (Z.leb_spec (seconds timeLimit) 0); [lia|reflexivity]. }
  rewrite Hinit.
  destruct (Z.ltb_spec (Z.of_nat n) (seconds timeLimit)) as [Hlt|Hge].
  - rewrite (ticks_countdown timeLimit n (useGameTimer.initial timeLimit) He);
      [reflexivity|].
    unfold useGameTimer.initial. rewrite He. exact Hlt.
  - replace n with (S L + (n - S L))%nat at 1 by lia.
    rewrite ticks_app.
    rewrite (ticks_expiry timeLimit L (useGameTimer.initial timeLimit) He)
      by (unfold useGameTimer.initial; rewrite He; exact Hs).
    rewrite (ticks_after_expiry timeLimit (n - S L) _ He) by (cbn; lia).
    cbn [snd app useGameTimer.initial useGameTimer.elapsedRef].
    rewrite (seqZ_cons (seconds timeLimit)) by lia.
    rewrite Hs. f_equal. f_equal; lia.
Qed.

(** X19: the threshold of 10 seconds never discards a countdown that ran
    out: every call of the end callback that the hook makes by itself
    carries at least the time limit (30 seconds or more), so endGame
    appends a record for it, with that elapsed time and the time limit, and
    the result screen shows its index. *)
Theorem countdown_expiry_recorded
    (w : App.World) (n : nat) (now_id now_date e : Z) :
  is_endless (App.timeLimit (App.state w)) = false ->
  e ∈ (useGameTimer.run (App.timeLimit (App.state w)) n).2 ->
  30 <= seconds (App.timeLimit (App.state w)) <= e
  /\ e <= Z.of_nat n
  /\ exists r,
       App.stats (App.state (App.current_endGame w now_id now_date e w))
       = App.stats (App.state w) ++ [r]
       /\ StatEntry.elapsed r = e
       /\ StatEntry.timeLimit r = App.timeLimit (App.state w)
       /\ ResultScreen.panel_of
            (App.state (App.current_endGame w now_id now_date e w))
          = ResultScreen.shown (StatEntry.pri r).
Proof.
  intros He Hin. rewrite (run_calls_countdown _ n He) in Hin.
  destruct (Z.ltb_spec (Z.of_nat n) (seconds (App.timeLimit (App.state w))))
    as [Hlt|Hge]; [apply elem_of_nil in Hin; contradiction|].
  apply elem_of_seqZ in Hin.
  assert (H30 : 30 <= seconds (App.timeLimit (App.state w))).
  { destruct (App.timeLimit (App.state w)); try discriminate; cbn; lia. }
  split; [lia|]. split; [lia|].
  unfold App.current_endGame.
  destruct (endGame_long (App.state w) now_id now_date e w ltac:(lia))
    as (Hs & _ & _ & Hel).
  exists (App.newStat_of (App.state w) now_id now_date e).
  split; [exact Hs|]. split; [reflexivity|]. split; [reflexivity|].
  unfold ResultScreen.panel_of, ResultScreen.indexPanel. rewrite Hel.
  destruct (Z.ltb_spec e 10); [lia|].
  unfold App.endGame. destruct (10 <=? e); reflexivity.
Qed.

Lemma countdown_expiry_recorded_witness :
  30 <= seconds (App.timeLimit (App.state finishing_session)) <= 60
  /\ 60 <= Z.of_nat 60
  /\ exists r,
       App.stats (App.state (App.current_endGame finishing_session 1 1 60
                               finishing_session))
       = App.stats (App.state finishing_session) ++ [r]
       /\ StatEntry.elapsed r = 60
       /\ StatEntry.timeLimit r = App.timeLimit (App.state finishing_session)
       /\ ResultScreen.panel_of
            (App.state (App.current_endGame finishing_session 1 1 60
                          finishing_session))
          = ResultScreen.shown (StatEntry.pri r).
Proof.
  apply (countdown_expiry_recorded finishing_session 60%nat 1 1 60).
  - reflexivity.
  - apply (bool_decide_eq_true_1
             (60 ∈ (useGameTimer.run
                      (App.timeLimit (App.state finishing_session)) 60).2)).
    vm_compute. reflexivity.
Defined.
